(** * Lobster: plan catalog and support tickets over a relational store

    A shallow embedding of the plan catalog and of the ticket system
    (support.go).  The Go functions are thin wrappers around SQL
    statements, so the development has three layers:

    - the tables, as the statements of the source use them;
    - one definition per SQL statement of the source;
    - the Go functions, which sequence those statements.

    Tables whose [id] column is produced by the store (the code reads it back
    through [LastInsertId]) are finite maps keyed by that id: an
    auto-increment column is a key of its table.  [region_plans] and
    [plan_metadata] have no such column in the source: they are lists of rows,
    in insertion order, and may hold several rows for one (plan, region). *)

From stdpp Require Import gmap strings list fin_maps sorting.
From Stdlib Require Import ZArith.

Local Open Scope string_scope.
Local Open Scope Z_scope.

(** ** Go values *)

(** The [error] values the two files build: [L.Error(key)],
    [L.Errorf(key, arg)] and [fmt.Errorf(format, arg)].  The localisation
    service [L] is outside the source; its errors are kept symbolic. *)
Inductive error : Type :=
| LError (key : string)
| LErrorf (key : string) (arg : string)
| FmtErrorf (format : string) (arg : string).

#[global] Instance error_eq_dec : EqDecision error.
Proof. solve_decision. Defined.

(** [type Plan struct].  A [nil] map is [None]. *)
Record Plan : Type := mkPlan {
  Plan_Id : Z;
  Plan_Name : string;
  Plan_Price : Z;
  Plan_Ram : Z;
  Plan_Cpu : Z;
  Plan_Storage : Z;
  Plan_Bandwidth : Z;
  Plan_Global : bool;
  Plan_Enabled : bool;
  Plan_Identification : string;
  Plan_RegionPlans : option (gmap string string);
  Plan_Metadata : option (gmap string string)
}.

(** Modelled from the spec: the [VmInterface] and [VMIPlans] declarations are
    not part of the source.  A provider "must support provisioning operations"
    and has "optionally a PlanList capability used by autopopulate"; only the
    latter is used here: [None] when the provider does not implement it,
    otherwise what its [PlanList()] returns, a slice and an error. *)
Record VmInterface : Type := mkVmInterface {
  vmi_PlanList : option (list Plan * option error)
}.

(** ** Tables *)

Record plans_row : Type := mkPlansRow {
  p_name : string;
  p_price : Z;
  p_ram : Z;
  p_cpu : Z;
  p_storage : Z;
  p_bandwidth : Z;
  p_global : bool;
  p_enabled : bool
}.

(** The code writes the [identification] column from a Go string only, so a
    stored identification is never [NULL]. *)
Record region_plans_row : Type := mkRegionPlansRow {
  rp_plan_id : Z;
  rp_region : string;
  rp_identification : string
}.

Record plan_metadata_row : Type := mkPlanMetadataRow {
  pm_plan_id : Z;
  pm_k : string;
  pm_v : string
}.

Record tickets_row : Type := mkTicketsRow {
  t_user_id : Z;
  t_name : string;
  t_status : string;
  t_time : Z;
  t_modify_time : Z
}.

Record ticket_messages_row : Type := mkTicketMessagesRow {
  m_ticket_id : Z;
  m_staff : bool;
  m_message : string;
  m_time : Z
}.

(** Modelled from the spec: the users table and [userDetails] live in a file
    that is not part of the source.  The spec only says that an account which
    "has not completed initial provisioning" cannot open a ticket; the code
    tests [user == nil || user.Status == "new"], so a user row carries its
    status. *)
Record users_row : Type := mkUsersRow {
  u_status : string
}.

#[global] Instance plans_row_eq_dec : EqDecision plans_row.
Proof. solve_decision. Defined.
#[global] Instance region_plans_row_eq_dec : EqDecision region_plans_row.
Proof. solve_decision. Defined.
#[global] Instance plan_metadata_row_eq_dec : EqDecision plan_metadata_row.
Proof. solve_decision. Defined.
#[global] Instance tickets_row_eq_dec : EqDecision tickets_row.
Proof. solve_decision. Defined.
#[global] Instance ticket_messages_row_eq_dec : EqDecision ticket_messages_row.
Proof. solve_decision. Defined.

(** The store.  [*_next] is the auto-increment counter of a table, [now] the
    reading of the server clock that [NOW()] returns. *)
Record Database : Type := mkDatabase {
  plans : gmap Z plans_row;
  plans_next : Z;
  region_plans : list region_plans_row;
  plan_metadata : list plan_metadata_row;
  tickets : gmap Z tickets_row;
  tickets_next : Z;
  ticket_messages : gmap Z ticket_messages_row;
  ticket_messages_next : Z;
  users : gmap Z users_row;
  now : Z
}.

Definition set_plans (f : gmap Z plans_row → gmap Z plans_row) (db : Database) : Database :=
  mkDatabase (f (plans db)) (plans_next db) (region_plans db) (plan_metadata db)
    (tickets db) (tickets_next db) (ticket_messages db) (ticket_messages_next db)
    (users db) (now db).

Definition set_plans_next (n : Z) (db : Database) : Database :=
  mkDatabase (plans db) n (region_plans db) (plan_metadata db)
    (tickets db) (tickets_next db) (ticket_messages db) (ticket_messages_next db)
    (users db) (now db).

Definition set_region_plans (f : list region_plans_row → list region_plans_row)
    (db : Database) : Database :=
  mkDatabase (plans db) (plans_next db) (f (region_plans db)) (plan_metadata db)
    (tickets db) (tickets_next db) (ticket_messages db) (ticket_messages_next db)
    (users db) (now db).

Definition set_plan_metadata (f : list plan_metadata_row → list plan_metadata_row)
    (db : Database) : Database :=
  mkDatabase (plans db) (plans_next db) (region_plans db) (f (plan_metadata db))
    (tickets db) (tickets_next db) (ticket_messages db) (ticket_messages_next db)
    (users db) (now db).

Definition set_tickets (f : gmap Z tickets_row → gmap Z tickets_row) (db : Database) : Database :=
  mkDatabase (plans db) (plans_next db) (region_plans db) (plan_metadata db)
    (f (tickets db)) (tickets_next db) (ticket_messages db) (ticket_messages_next db)
    (users db) (now db).

Definition set_tickets_next (n : Z) (db : Database) : Database :=
  mkDatabase (plans db) (plans_next db) (region_plans db) (plan_metadata db)
    (tickets db) n (ticket_messages db) (ticket_messages_next db)
    (users db) (now db).

Definition set_ticket_messages
    (f : gmap Z ticket_messages_row → gmap Z ticket_messages_row) (db : Database) : Database :=
  mkDatabase (plans db) (plans_next db) (region_plans db) (plan_metadata db)
    (tickets db) (tickets_next db) (f (ticket_messages db)) (ticket_messages_next db)
    (users db) (now db).

Definition set_ticket_messages_next (n : Z) (db : Database) : Database :=
  mkDatabase (plans db) (plans_next db) (region_plans db) (plan_metadata db)
    (tickets db) (tickets_next db) (ticket_messages db) n
    (users db) (now db).

(** ** Queries shared by several statements *)

(** [ORDER BY id] on rows that start with their id. *)
Definition by_id {A : Type} : relation (Z * A) := λ a b, a.1 ≤ b.1.

#[global] Instance by_id_dec {A : Type} (a b : Z * A) : Decision (by_id a b).
Proof. unfold by_id. apply _. Defined.

#[global] Instance by_id_total {A : Type} : Total (@by_id A).
Proof. intros a b. unfold by_id. lia. Qed.

#[global] Instance by_id_trans {A : Type} : Transitive (@by_id A).
Proof. intros a b c. unfold by_id. lia. Qed.

Definition order_by_id {A : Type} (rows : list (Z * A)) : list (Z * A) :=
  merge_sort by_id rows.

(** [... FROM region_plans WHERE plan_id = ? AND region = ?] *)
Definition region_plans_of (planId : Z) (region : string)
    (rows : list region_plans_row) : list region_plans_row :=
  filter (λ b, rp_plan_id b = planId ∧ rp_region b = region) rows.

(** [... FROM region_plans WHERE region = ? AND identification = ?] *)
Definition region_plans_identified (region identification : string)
    (rows : list region_plans_row) : list region_plans_row :=
  filter (λ b, rp_region b = region ∧ rp_identification b = identification) rows.

(** [UPDATE region_plans SET identification = ? WHERE plan_id = ? AND
    region = ?] *)
Definition update_region_plans (identification : string) (planId : Z) (region : string)
    (rows : list region_plans_row) : list region_plans_row :=
  (λ b, if bool_decide (rp_plan_id b = planId ∧ rp_region b = region)
        then mkRegionPlansRow (rp_plan_id b) (rp_region b) identification
        else b) <$> rows.

(** [INSERT INTO region_plans (plan_id, region, identification) VALUES (?, ?,
    ?)] *)
Definition insert_region_plans (planId : Z) (region identification : string)
    (rows : list region_plans_row) : list region_plans_row :=
  (rows ++ [mkRegionPlansRow planId region identification])%list.

(** [SELECT COUNT( * )] into a Go [int]. *)
Definition count {A : Type} (rows : list A) : Z := Z.of_nat (length rows).

(** [plans LEFT JOIN region_plans ON plans.id = region_plans.plan_id AND
    region_plans.region = ?]: a plan row with no partner is kept once, with
    [NULL] in the joined column; otherwise once per partner. *)
Definition left_join_region_plans (region : string) (rps : list region_plans_row)
    (p : Z * plans_row) : list (Z * (plans_row * option string)) :=
  match region_plans_of p.1 region rps with
  | [] => [(p.1, (p.2, None))]
  | bs => (λ b, (p.1, (p.2, Some (rp_identification b)))) <$> bs
  end.

(** [WHERE plans.enabled = 1 AND (plans.global = 1 OR
    region_plans.identification IS NOT NULL)] *)
Definition visible_in_region (r : Z * (plans_row * option string)) : bool :=
  p_enabled r.2.1 && (p_global r.2.1 || bool_decide (is_Some r.2.2)).

(** [IFNULL(region_plans.identification, '')] as the tenth column. *)
Definition ifnull_identification (r : Z * (plans_row * option string))
    : Z * (plans_row * string) :=
  (r.1, (r.2.1, default "" r.2.2)).

(** ** The plan catalog *)

(** One iteration of the [rows.Next()] loop: [rows.Scan] into a fresh [Plan]. *)
Definition scan_plan (r : Z * (plans_row * string)) : Plan :=
  {| Plan_Id := r.1;
     Plan_Name := p_name r.2.1;
     Plan_Price := p_price r.2.1;
     Plan_Ram := p_ram r.2.1;
     Plan_Cpu := p_cpu r.2.1;
     Plan_Storage := p_storage r.2.1;
     Plan_Bandwidth := p_bandwidth r.2.1;
     Plan_Global := p_global r.2.1;
     Plan_Enabled := p_enabled r.2.1;
     Plan_Identification := r.2.2;
     Plan_RegionPlans := None;
     Plan_Metadata := None |}.

Definition LoadRegionPlans (db : Database) (plan : Plan) : Plan :=
  if Plan_Global plan then plan
  else
    mkPlan (Plan_Id plan) (Plan_Name plan) (Plan_Price plan) (Plan_Ram plan) (Plan_Cpu plan)
      (Plan_Storage plan) (Plan_Bandwidth plan) (Plan_Global plan) (Plan_Enabled plan)
      (Plan_Identification plan)
      (Some (fold_left (λ m b, <[rp_region b := rp_identification b]> m)
               (filter (λ b, rp_plan_id b = Plan_Id plan) (region_plans db)) ∅))
      (Plan_Metadata plan).

Definition LoadMetadata (db : Database) (plan : Plan) : Plan :=
  mkPlan (Plan_Id plan) (Plan_Name plan) (Plan_Price plan) (Plan_Ram plan) (Plan_Cpu plan)
    (Plan_Storage plan) (Plan_Bandwidth plan) (Plan_Global plan) (Plan_Enabled plan)
    (Plan_Identification plan) (Plan_RegionPlans plan)
    (Some (fold_left (λ m r, <[pm_k r := pm_v r]> m)
             (filter (λ r, pm_plan_id r = Plan_Id plan) (plan_metadata db)) ∅)).

Definition planListHelper (rows : list (Z * (plans_row * string))) : list Plan :=
  scan_plan <$> rows.

Definition planList (db : Database) : list Plan :=
  planListHelper
    (order_by_id ((λ p : Z * plans_row, (p.1, (p.2, ""))) <$> map_to_list (plans db))).

Definition planListRegion (db : Database) (region : string) : list Plan :=
  planListHelper
    (order_by_id
       (ifnull_identification <$>
          filter (λ r, visible_in_region r = true)
            (map_to_list (plans db) ≫= left_join_region_plans region (region_plans db)))).

Definition planGet (db : Database) (planId : Z) : option Plan :=
  match planListHelper
          ((λ p : Z * plans_row, (p.1, (p.2, ""))) <$>
             filter (λ p : Z * plans_row, p.1 = planId) (map_to_list (plans db))) with
  | [plan] => Some plan
  | _ => None
  end.

Definition planGetRegion (db : Database) (region : string) (planId : Z) : option Plan :=
  match planListHelper
          (ifnull_identification <$>
             filter (λ r, r.1 = planId ∧ visible_in_region r = true)
               (map_to_list (plans db) ≫= left_join_region_plans region (region_plans db))) with
  | [plan] => Some plan
  | _ => None
  end.

Definition planDelete (db : Database) (planId : Z) : Database :=
  set_plans (delete planId) db.

Definition planEnable (db : Database) (planId : Z) : Database :=
  set_plans (alter (λ r, mkPlansRow (p_name r) (p_price r) (p_ram r) (p_cpu r)
                           (p_storage r) (p_bandwidth r) (p_global r) true) planId) db.

Definition planDisable (db : Database) (planId : Z) : Database :=
  set_plans (alter (λ r, mkPlansRow (p_name r) (p_price r) (p_ram r) (p_cpu r)
                           (p_storage r) (p_bandwidth r) (p_global r) false) planId) db.

Definition planDeassociateRegion (db : Database) (planId : Z) (region : string) : Database :=
  set_region_plans (filter (λ b, ¬ (rp_plan_id b = planId ∧ rp_region b = region))) db.

Definition planSetMetadata (db : Database) (planId : Z) (k v : string) : Database :=
  if bool_decide
       (count (filter (λ m, pm_plan_id m = planId ∧ pm_k m = k) (plan_metadata db)) = 1)
  then set_plan_metadata
         (fmap (λ m, if bool_decide (pm_plan_id m = planId ∧ pm_k m = k)
                     then mkPlanMetadataRow (pm_plan_id m) (pm_k m) v else m)) db
  else set_plan_metadata (λ rows, (rows ++ [mkPlanMetadataRow planId k v])%list) db.

Definition planUnsetMetadata (db : Database) (planId : Z) (k : string) : Database :=
  set_plan_metadata (filter (λ m, ¬ (pm_plan_id m = planId ∧ pm_k m = k))) db.

Section catalog.

(** The package-level provider table [regionInterfaces], filled once at
    start-up, and the default of the [enabled] column, which the INSERT of
    [planCreate] does not set (the schema is not part of the source). *)
Variable regionInterfaces : gmap string VmInterface.
Variable plans_enabled_default : bool.

Definition planCreate (db : Database) (name : string) (price ram cpu storage bandwidth : Z)
    (global : bool) : Database * Z :=
  let id := plans_next db in
  (set_plans_next (id + 1)
     (set_plans (insert id (mkPlansRow name price ram cpu storage bandwidth global
                              plans_enabled_default)) db),
   id).

Definition planAssociateRegion (db : Database) (planId : Z) (region identification : string)
    : Database * option error :=
  match regionInterfaces !! region with
  | None => (db, Some (FmtErrorf "specified region %s does not exist" region))
  | Some _ =>
    if bool_decide (count (region_plans_of planId region (region_plans db)) = 1)
    then (set_region_plans (update_region_plans identification planId region) db, None)
    else (set_region_plans (insert_region_plans planId region identification) db, None)
  end.

(** The body of the [for _, plan := range plans] loop. *)
Definition autopopulate_step (region : string) (db : Database) (plan : Plan) : Database :=
  if bool_decide
       (count (region_plans_identified region (Plan_Identification plan) (region_plans db)) = 0)
  then
    let '(db1, planId) :=
      planCreate db (Plan_Name plan) (Plan_Price plan) (Plan_Ram plan) (Plan_Cpu plan)
        (Plan_Storage plan) (Plan_Bandwidth plan) false in
    (planAssociateRegion db1 planId region (Plan_Identification plan)).1
  else db.

Definition planAutopopulate (db : Database) (region : string) : Database * option error :=
  match regionInterfaces !! region with
  | None => (db, Some (FmtErrorf "specified region %s does not exist" region))
  | Some vmi =>
    match vmi_PlanList vmi with
    | None => (db, Some (LError "region_plans_unsupported"))
    | Some (_, Some err) => (db, Some err)
    | Some (plans, None) => (fold_left (autopopulate_step region) plans db, None)
    end
  end.

End catalog.

(** ** support.go *)

Record TicketMessage : Type := mkTicketMessage {
  TicketMessage_Id : Z;
  TicketMessage_Staff : bool;
  TicketMessage_Message : string;
  TicketMessage_Time : Z
}.

Record Ticket : Type := mkTicket {
  Ticket_Id : Z;
  Ticket_UserId : Z;
  Ticket_Name : string;
  Ticket_Status : string;
  Ticket_Time : Z;
  Ticket_ModifyTime : Z;
  Ticket_Messages : list TicketMessage
}.

(** What the ticket functions do besides writing to the store.  A call of the
    logger is recorded with its arguments.  A [go func() { time.Sleep(20s);
    ticketReply(db, userId, ticketId, <canned text>, true) }()] is recorded as
    a pending goroutine holding the two captured variables; the delay itself
    is not modelled, only that the call happens later, when the goroutine is
    fired. *)
Record TicketUpdateEmail : Type := mkTicketUpdateEmail {
  Email_Id : Z;
  Email_Subject : string;
  Email_Message : string
}.

Record Mail : Type := mkMail {
  mail_userId : Z;
  mail_template : string;
  mail_payload : TicketUpdateEmail;
  mail_flag : bool
}.

Inductive LogLine : Type :=
| LogTicketOpened (userId : Z) (name : string)
| LogTicketReply (userId ticketId : Z) (name : string).

Record Goroutine : Type := mkGoroutine {
  g_userId : Z;
  g_ticketId : Z
}.

Record World : Type := mkWorld {
  w_db : Database;
  w_mail : list Mail;
  w_log : list LogLine;
  w_goroutines : list Goroutine
}.

Definition with_db (f : Database → Database) (w : World) : World :=
  mkWorld (f (w_db w)) (w_mail w) (w_log w) (w_goroutines w).

(** Modelled from the spec: [mailWrap] is not part of the source; it hands
    "(recipient-or-broadcast, template-name, structured-payload)" to the mail
    service.  The call is recorded with its arguments. *)
Definition mailWrap (userId : Z) (template : string) (payload : TicketUpdateEmail)
    (flag : bool) (w : World) : World :=
  mkWorld (w_db w) (w_mail w ++ [mkMail userId template payload flag])%list
    (w_log w) (w_goroutines w).

Definition log_Printf (line : LogLine) (w : World) : World :=
  mkWorld (w_db w) (w_mail w) (w_log w ++ [line])%list (w_goroutines w).

Definition go (g : Goroutine) (w : World) : World :=
  mkWorld (w_db w) (w_mail w) (w_log w) (w_goroutines w ++ [g])%list.

(** The text of the automatic reply, with its three line feeds. *)
Definition line_feed : string := String (Ascii.ascii_of_nat 10) EmptyString.

Definition auto_reply_text : string :=
  "We have resolved this issue. Have a good day." +:+ line_feed +:+ line_feed
  +:+ "Regards," +:+ line_feed +:+ "Lobster Staff".

(** [INSERT INTO tickets (user_id, name, status, modify_time) VALUES (?, ?,
    'open', NOW())], with the id the store hands back.  The [time] column is
    left to its default, taken to be the clock as well. *)
Definition insert_ticket (userId : Z) (name : string) (db : Database) : Database * Z :=
  let id := tickets_next db in
  (set_tickets_next (id + 1)
     (set_tickets (insert id (mkTicketsRow userId name "open" (now db) (now db))) db),
   id).

(** [INSERT INTO ticket_messages (ticket_id, staff, message) VALUES (?, ?, ?)] *)
Definition insert_ticket_message (ticketId : Z) (staff : bool) (message : string)
    (db : Database) : Database :=
  let id := ticket_messages_next db in
  set_ticket_messages_next (id + 1)
    (set_ticket_messages (insert id (mkTicketMessagesRow ticketId staff message (now db))) db).

(** [UPDATE tickets SET modify_time = NOW(), status = ? WHERE id = ?] *)
Definition update_ticket_status (newStatus : string) (ticketId : Z) (db : Database) : Database :=
  set_tickets
    (alter (λ r, mkTicketsRow (t_user_id r) (t_name r) newStatus (t_time r) (now db)) ticketId) db.

(** [UPDATE tickets SET modify_time = NOW(), status = 'closed' WHERE id = ?
    AND user_id = ?] *)
Definition close_ticket_of (ticketId userId : Z) (db : Database) : Database :=
  set_tickets
    (alter (λ r, if bool_decide (t_user_id r = userId)
                 then mkTicketsRow (t_user_id r) (t_name r) "closed" (t_time r) (now db)
                 else r) ticketId) db.

(** Modelled from the spec: [userDetails] is not part of the source; it
    returns the user's record, or [nil] when there is none. *)
Definition userDetails (db : Database) (userId : Z) : option users_row :=
  users db !! userId.

Definition scan_ticket (r : Z * tickets_row) : Ticket :=
  {| Ticket_Id := r.1;
     Ticket_UserId := t_user_id r.2;
     Ticket_Name := t_name r.2;
     Ticket_Status := t_status r.2;
     Ticket_Time := t_time r.2;
     Ticket_ModifyTime := t_modify_time r.2;
     Ticket_Messages := [] |}.

Definition ticketListHelper (rows : list (Z * tickets_row)) : list Ticket :=
  scan_ticket <$> rows.

Definition scan_message (r : Z * ticket_messages_row) : TicketMessage :=
  {| TicketMessage_Id := r.1;
     TicketMessage_Staff := m_staff r.2;
     TicketMessage_Message := m_message r.2;
     TicketMessage_Time := m_time r.2 |}.

(** [SELECT id, staff, message, time FROM ticket_messages WHERE ticket_id = ?
    ORDER BY id] *)
Definition select_messages (ticketId : Z) (db : Database) : list (Z * ticket_messages_row) :=
  order_by_id
    (filter (λ r : Z * ticket_messages_row, m_ticket_id r.2 = ticketId)
       (map_to_list (ticket_messages db))).

Definition append_messages (ticket : Ticket) (ms : list TicketMessage) : Ticket :=
  mkTicket (Ticket_Id ticket) (Ticket_UserId ticket) (Ticket_Name ticket)
    (Ticket_Status ticket) (Ticket_Time ticket) (Ticket_ModifyTime ticket)
    (Ticket_Messages ticket ++ ms)%list.

Definition ticketDetails (db : Database) (userId ticketId : Z) (staff : bool) : option Ticket :=
  let rows :=
    if staff
    then filter (λ r : Z * tickets_row, r.1 = ticketId) (map_to_list (tickets db))
    else filter (λ r : Z * tickets_row, t_user_id r.2 = userId ∧ r.1 = ticketId)
           (map_to_list (tickets db)) in
  match ticketListHelper rows with
  | [ticket] => Some (append_messages ticket (scan_message <$> select_messages ticketId db))
  | _ => None
  end.

(** [ORDER BY modify_time DESC] *)
Definition by_recency : relation (Z * tickets_row) :=
  λ a b, t_modify_time b.2 ≤ t_modify_time a.2.

#[global] Instance by_recency_dec (a b : Z * tickets_row) : Decision (by_recency a b).
Proof. unfold by_recency. apply _. Defined.

#[global] Instance by_recency_total : Total by_recency.
Proof. intros a b. unfold by_recency. lia. Qed.

#[global] Instance by_recency_trans : Transitive by_recency.
Proof. intros a b c. unfold by_recency. lia. Qed.

(** [FIELD(status, 'open', 'answered', 'closed')]: the position of the status
    in the list, from 1, and 0 when it is not in the list. *)
Definition FIELD_status (status : string) : Z :=
  if bool_decide (status = "open") then 1
  else if bool_decide (status = "answered") then 2
  else if bool_decide (status = "closed") then 3
  else 0.

(** [ORDER BY FIELD(status, 'open', 'answered', 'closed'), modify_time DESC] *)
Definition by_status_recency : relation (Z * tickets_row) :=
  λ a b, FIELD_status (t_status a.2) < FIELD_status (t_status b.2)
         ∨ (FIELD_status (t_status a.2) = FIELD_status (t_status b.2)
            ∧ t_modify_time b.2 ≤ t_modify_time a.2).

#[global] Instance by_status_recency_dec (a b : Z * tickets_row) :
  Decision (by_status_recency a b).
Proof. unfold by_status_recency. apply _. Defined.

#[global] Instance by_status_recency_total : Total by_status_recency.
Proof. intros a b. unfold by_status_recency. lia. Qed.

#[global] Instance by_status_recency_trans : Transitive by_status_recency.
Proof. intros a b c. unfold by_status_recency. lia. Qed.

Definition ticketList (db : Database) (userId : Z) : list Ticket :=
  ticketListHelper
    (merge_sort by_recency
       (filter (λ r : Z * tickets_row, t_user_id r.2 = userId) (map_to_list (tickets db)))).

Definition ticketListActive (db : Database) (userId : Z) : list Ticket :=
  ticketListHelper
    (merge_sort by_recency
       (filter (λ r : Z * tickets_row,
                  t_user_id r.2 = userId
                  ∧ (t_status r.2 = "open" ∨ t_status r.2 = "answered"))
          (map_to_list (tickets db)))).

Definition ticketListAll (db : Database) : list Ticket :=
  ticketListHelper (merge_sort by_status_recency (map_to_list (tickets db))).

Section support.

(** [cfg.Default.AdminEmail] *)
Variable AdminEmail : string.

Definition ticketOpen (w : World) (userId : Z) (name message : string) (staff : bool)
    : World * (Z * option error) :=
  if bool_decide (name = "") || bool_decide (message = "")
  then (w, (0, Some (LError "subject_message_empty")))
  else if bool_decide (Z.of_nat (String.length message) > 16384)
  then (w, (0, Some (LErrorf "message_too_long" "15,000")))
  else
    let user := userDetails (w_db w) userId in
    if negb staff &&
       match user with
       | None => true
       | Some u => bool_decide (u_status u = "new")
       end
    then (w, (0, Some (LErrorf "ticket_for_support" AdminEmail)))
    else
      let '(db1, ticketId) := insert_ticket userId name (w_db w) in
      let w1 := with_db (λ _, insert_ticket_message ticketId staff message db1) w in
      let w2 :=
        if staff
        then mailWrap userId "ticketOpen" (mkTicketUpdateEmail ticketId name message) false w1
        else go (mkGoroutine userId ticketId)
               (mailWrap (-1) "ticketOpen" (mkTicketUpdateEmail ticketId name message) false w1) in
      (log_Printf (LogTicketOpened userId name) w2, (ticketId, None)).

End support.

Definition ticketReply (w : World) (userId ticketId : Z) (message : string) (staff : bool)
    : World * option error :=
  if bool_decide (message = "")
  then (w, Some (LError "message_empty"))
  else
    match ticketDetails (w_db w) userId ticketId staff with
    | None => (w, Some (LError "invalid_ticket"))
    | Some ticket =>
      let w1 := with_db (insert_ticket_message ticketId staff message) w in
      let newStatus := if staff then "answered" else "open" in
      let w2 :=
        if staff
        then mailWrap userId "ticketReply"
               (mkTicketUpdateEmail ticketId (Ticket_Name ticket) message) false w1
        else go (mkGoroutine userId ticketId)
               (mailWrap (-1) "ticketReply"
                  (mkTicketUpdateEmail ticketId (Ticket_Name ticket) message) false w1) in
      let w3 := with_db (update_ticket_status newStatus ticketId) w2 in
      (log_Printf (LogTicketReply userId ticketId (Ticket_Name ticket)) w3, None)
    end.

Definition ticketClose (w : World) (userId ticketId : Z) : World :=
  with_db (close_ticket_of ticketId userId) w.

(** Firing a pending goroutine: the body of the closure after its sleep.  The
    closure drops the error of [ticketReply]. *)
Definition fire (g : Goroutine) (w : World) : World :=
  (ticketReply w (g_userId g) (g_ticketId g) auto_reply_text true).1.

(** The scheduler picks any pending goroutine; it leaves the pending list when
    it runs. *)
Inductive fires : World → World → Prop :=
| fires_pending (w : World) (g : Goroutine) (before after : list Goroutine) :
    w_goroutines w = (before ++ g :: after)%list →
    fires w (fire g (mkWorld (w_db w) (w_mail w) (w_log w) (before ++ after)%list)).

(** ** lobster.go *)

Record VmConfig : Type := mkVmConfig {
  VmConfig_Name : string;
  VmConfig_Type : string;
  VmConfig_ApiId : string;
  VmConfig_ApiKey : string;
  VmConfig_Url : string;
  VmConfig_VirtType : string;
  VmConfig_NodeGroup : string;
  VmConfig_Insecure : bool;
  VmConfig_Username : string;
  VmConfig_Password : string;
  VmConfig_Tenant : string;
  VmConfig_NetworkId : string;
  VmConfig_Region : string
}.

Record PaymentConfig : Type := mkPaymentConfig {
  PaymentConfig_Name : string;
  PaymentConfig_Type : string;
  PaymentConfig_Business : string;
  PaymentConfig_ReturnUrl : string;
  PaymentConfig_CallbackSecret : string;
  PaymentConfig_ApiKey : string;
  PaymentConfig_ApiSecret : string
}.

Record InterfaceConfig : Type := mkInterfaceConfig {
  InterfaceConfig_Vm : list VmConfig;
  InterfaceConfig_Payment : list PaymentConfig
}.

(** The provider values [main] builds, each by the expression that builds
    it.  The packages behind them are outside the source. *)
Inductive VmValue : Type :=
| MakeOpenStack (url username password tenant networkId : string)
| SolusVM (virtType nodeGroup url apiId apiKey : string) (insecure : bool)
| MakeLNDynamic (region apiId apiKey : string)
| VmFake.

Inductive PaymentValue : Type :=
| MakePaypalPayment (business returnUrl : string)
| MakeCoinbasePayment (callbackSecret apiKey apiSecret : string)
| FakePayment.

(** The calls [main] makes on the application object, in order, and how the
    wiring ends: it goes on to [app.Run()], it stops in [log.Fatalf], or a
    constructor of a provider package does not return. *)
Inductive Registration : Type :=
| RegisterVmInterface (name : string) (vmi : VmValue)
| RegisterPaymentInterface (name : string) (pi : PaymentValue).

Inductive Outcome : Type :=
| Runs
| Fatalf (format arg : string)
| ConstructorStops.

Section startup.

(** Whether a call of a constructor of a provider package returns; the
    struct literals and [new(...)] always do. *)
Variable vm_constructs : VmValue → bool.
Variable payment_constructs : PaymentValue → bool.

Definition make_vm (vm : VmConfig) : VmValue + Outcome :=
  if bool_decide (VmConfig_Type vm = "openstack") then
    let v := MakeOpenStack (VmConfig_Url vm) (VmConfig_Username vm) (VmConfig_Password vm)
               (VmConfig_Tenant vm) (VmConfig_NetworkId vm) in
    if vm_constructs v then inl v else inr ConstructorStops
  else if bool_decide (VmConfig_Type vm = "solusvm") then
    inl (SolusVM (VmConfig_VirtType vm) (VmConfig_NodeGroup vm) (VmConfig_Url vm)
           (VmConfig_ApiId vm) (VmConfig_ApiKey vm) (VmConfig_Insecure vm))
  else if bool_decide (VmConfig_Type vm = "lndynamic") then
    let v := MakeLNDynamic (VmConfig_Region vm) (VmConfig_ApiId vm) (VmConfig_ApiKey vm) in
    if vm_constructs v then inl v else inr ConstructorStops
  else if bool_decide (VmConfig_Type vm = "fake") then inl VmFake
  else inr (Fatalf "Encountered unrecognized VM interface type %s" (VmConfig_Type vm)).

Definition make_payment (payment : PaymentConfig) : PaymentValue + Outcome :=
  if bool_decide (PaymentConfig_Type payment = "paypal") then
    let v := MakePaypalPayment (PaymentConfig_Business payment)
               (PaymentConfig_ReturnUrl payment) in
    if payment_constructs v then inl v else inr ConstructorStops
  else if bool_decide (PaymentConfig_Type payment = "coinbase") then
    let v := MakeCoinbasePayment (PaymentConfig_CallbackSecret payment)
               (PaymentConfig_ApiKey payment) (PaymentConfig_ApiSecret payment) in
    if payment_constructs v then inl v else inr ConstructorStops
  else if bool_decide (PaymentConfig_Type payment = "fake") then inl FakePayment
  else inr (Fatalf "Encountered unrecognized payment interface type %s"
              (PaymentConfig_Type payment)).

(** [for _, vm := range interfaceConfig.Vm { ... }] *)
Fixpoint register_vms (vms : list VmConfig) (calls : list Registration)
    : list Registration * option Outcome :=
  match vms with
  | [] => (calls, None)
  | vm :: rest =>
    match make_vm vm with
    | inl vmi => register_vms rest (calls ++ [RegisterVmInterface (VmConfig_Name vm) vmi])%list
    | inr stop => (calls, Some stop)
    end
  end.

(** [for _, payment := range interfaceConfig.Payment { ... }] *)
Fixpoint register_payments (payments : list PaymentConfig) (calls : list Registration)
    : list Registration * option Outcome :=
  match payments with
  | [] => (calls, None)
  | payment :: rest =>
    match make_payment payment with
    | inl pi =>
      register_payments rest
        (calls ++ [RegisterPaymentInterface (PaymentConfig_Name payment) pi])%list
    | inr stop => (calls, Some stop)
    end
  end.

(** [main], from the parsed interface configuration to [app.Run()]. *)
Definition wire (interfaceConfig : InterfaceConfig) : list Registration * Outcome :=
  match register_vms (InterfaceConfig_Vm interfaceConfig) [] with
  | (calls, Some stop) => (calls, stop)
  | (calls, None) =>
    match register_payments (InterfaceConfig_Payment interfaceConfig) calls with
    | (calls', Some stop) => (calls', stop)
    | (calls', None) => (calls', Runs)
    end
  end.

(** The call an entry of the configuration leads to, or how it stops the
    wiring. *)
Definition registration_of (entry : VmConfig + PaymentConfig) : Registration + Outcome :=
  match entry with
  | inl vm =>
    match make_vm vm with
    | inl vmi => inl (RegisterVmInterface (VmConfig_Name vm) vmi)
    | inr stop => inr stop
    end
  | inr payment =>
    match make_payment payment with
    | inl pi => inl (RegisterPaymentInterface (PaymentConfig_Name payment) pi)
    | inr stop => inr stop
    end
  end.

End startup.

(** The entries of a configuration in the order [main] treats them: the VM
    entries, then the payment entries. *)
Definition entries (interfaceConfig : InterfaceConfig) : list (VmConfig + PaymentConfig) :=
  ((inl <$> InterfaceConfig_Vm interfaceConfig)
     ++ (inr <$> InterfaceConfig_Payment interfaceConfig))%list.

(** ** Notions the statements below use *)

(** A [region_plans] row binds the plan to the region. *)
Definition bound_in (db : Database) (planId : Z) (region : string) : Prop :=
  ∃ b, b ∈ region_plans db ∧ rp_plan_id b = planId ∧ rp_region b = region.

#[global] Instance bound_in_decision db planId region : Decision (bound_in db planId region).
Proof.
  refine (cast_if (decide (Exists (λ b, rp_plan_id b = planId ∧ rp_region b = region)
                             (region_plans db))));
    unfold bound_in; rewrite Exists_exists in *; naive_solver.
Defined.

(** The listing in the words of the specification: the ids of the plans that
    are enabled and (global, or bound to the region), by ascending id. *)
Definition visible_plan_ids (db : Database) (region : string) : list Z :=
  (order_by_id
     (filter (λ p : Z * plans_row,
                p_enabled p.2 = true ∧ (p_global p.2 = true ∨ bound_in db p.1 region))
        (map_to_list (plans db)))).*1.

(** Two calls of [planAssociateRegion] in succession with the same arguments;
    the errors are dropped. *)
Definition associate_twice (regionInterfaces : gmap string VmInterface) (db : Database)
    (planId : Z) (region identification : string) : Database :=
  (planAssociateRegion regionInterfaces
     (planAssociateRegion regionInterfaces db planId region identification).1
     planId region identification).1.

(** No binding of the region refers to a plan id that the [plans] table has
    yet to hand out. *)
Definition bindings_allocated (db : Database) (region : string) : Prop :=
  ∀ b, b ∈ region_plans db → rp_region b = region → rp_plan_id b < plans_next db.

(** Some binding of the region carries the identification of the provider's
    plan: the count that [planAutopopulate] reads is not 0. *)
Definition identified_in (region : string) (db : Database) (p : Plan) : Prop :=
  region_plans_identified region (Plan_Identification p) (region_plans db) ≠ [].

(** What a caller reads for one region after [LoadRegionPlans], and for one
    key after [LoadMetadata]; nothing when the map is [nil]. *)
Definition loaded_region (db : Database) (plan : Plan) (region : string) : option string :=
  Plan_RegionPlans (LoadRegionPlans db plan) ≫= (λ m, m !! region).

Definition loaded_metadata (db : Database) (plan : Plan) (k : string) : option string :=
  Plan_Metadata (LoadMetadata db plan) ≫= (λ m, m !! k).

(** [... FROM plan_metadata WHERE plan_id = ? AND k = ?] *)
Definition plan_metadata_of (planId : Z) (k : string)
    (rows : list plan_metadata_row) : list plan_metadata_row :=
  filter (λ m, pm_plan_id m = planId ∧ pm_k m = k) rows.

(** The row [planAutopopulate] writes to [plans] for a plan of the provider. *)
Definition plans_row_of_provider (enabled_default : bool) (p : Plan) : plans_row :=
  mkPlansRow (Plan_Name p) (Plan_Price p) (Plan_Ram p) (Plan_Cpu p) (Plan_Storage p)
    (Plan_Bandwidth p) false enabled_default.

(** What a run of [planAutopopulate] has added to a store [db0] when it has
    reached [db']: the binding rows [extra], one per new identification, each
    for a plan row created in the run from a plan of the provider's list. *)
Definition populated (enabled_default : bool) (region : string) (listed : list Plan)
    (db0 db' : Database) (extra : list region_plans_row) : Prop :=
  region_plans db' = (region_plans db0 ++ extra)%list
  ∧ plans_next db' = plans_next db0 + Z.of_nat (length extra)
  ∧ NoDup (rp_identification <$> extra)
  ∧ (∀ b, b ∈ extra →
          rp_region b = region
          ∧ plans_next db0 ≤ rp_plan_id b < plans_next db'
          ∧ region_plans_identified region (rp_identification b) (region_plans db0) = []
          ∧ ∃ p, p ∈ listed ∧ Plan_Identification p = rp_identification b
                 ∧ plans db' !! rp_plan_id b = Some (plans_row_of_provider enabled_default p))
  ∧ (∀ id, id < plans_next db0 → plans db' !! id = plans db0 !! id).

(** The ticket tables are consistent: ticket and message ids lie below the
    counters that hand them out, and every message belongs to a ticket that
    exists. *)
Definition tickets_wf (db : Database) : Prop :=
  (∀ id, is_Some (tickets db !! id) → id < tickets_next db)
  ∧ (∀ mid mrow, ticket_messages db !! mid = Some mrow →
                 mid < ticket_messages_next db ∧ is_Some (tickets db !! m_ticket_id mrow)).

(** No plan is bound to a region by more than one row. *)
Definition bindings_single (db : Database) : Prop :=
  ∀ id r, count (region_plans_of id r (region_plans db)) ≤ 1.

(** The status column of a ticket, if the ticket exists. *)
Definition status_of (db : Database) (ticketId : Z) : option string :=
  t_status <$> tickets db !! ticketId.

(** The record [ticketDetails] builds from a row of [tickets]: its columns
    and the thread of the ticket. *)
Definition ticket_of_row (db : Database) (ticketId : Z) (row : tickets_row) : Ticket :=
  append_messages (scan_ticket (ticketId, row))
    (scan_message <$> select_messages ticketId db).

(** The account exists and has left the status it is created with. *)
Definition provisioned (db : Database) (userId : Z) : Prop :=
  ∃ u, users db !! userId = Some u ∧ u_status u ≠ "new".

(** A message made of [n] letters. *)
Fixpoint letters (n : nat) : string :=
  match n with
  | O => EmptyString
  | S n => String (Ascii.ascii_of_nat 97) (letters n)
  end.

(** ** Concrete stores *)

Definition empty_db : Database := mkDatabase ∅ 1 [] [] ∅ 1 ∅ 1 ∅ 0.

(** A provider table with one region, whose provider lists two plans. *)
Definition provider_plan (name identification : string) : Plan :=
  mkPlan 0 name 500 512 1 10 100 false true identification None None.

Definition us_east_only : gmap string VmInterface :=
  {[ "us-east" :=
       mkVmInterface (Some ([provider_plan "Small" "A"; provider_plan "Large" "B"], None)) ]}.

(** The scenario of the specification: a non-global plan, created under id 1
    and bound to one region. *)
Definition db_starter : Database :=
  (planAssociateRegion us_east_only
     (planCreate true empty_db "Starter" 500 512 1 10 100 false).1
     1 "us-east" "ext-123").1.

(** Two rows bind plan 1 to the region. *)
Definition db_two_bindings : Database :=
  set_region_plans
    (λ _, [mkRegionPlansRow 1 "us-east" "ext-1"; mkRegionPlansRow 1 "us-east" "ext-2"])
    empty_db.

(** Plan 1 exists, enabled, and two rows bind it to the region. *)
Definition db_bound_twice : Database :=
  set_plans (insert 1 (mkPlansRow "Starter" 500 512 1 10 100 false true)) db_two_bindings.

(** The region holds a binding for plan 1, which does not exist yet and whose
    id is the next one that [plans] hands out: the state after
    [planAssociateRegion 1 "us-east" "A"] on the empty store. *)
Definition db_early_binding : Database :=
  (planAssociateRegion us_east_only empty_db 1 "us-east" "A").1.

(** User 7 has an account in use; the customer opens a ticket, which leaves
    one goroutine pending. *)
Definition w_start : World :=
  mkWorld (mkDatabase ∅ 1 [] [] ∅ 1 ∅ 1 {[ 7 := mkUsersRow "active" ]} 0) [] [] [].

Definition w_opened : World := (ticketOpen "admin@example.org" w_start 7 "Help" "hi" false).1.

(** The owner has closed the ticket. *)
Definition w_closed : World := ticketClose w_opened 7 1.

(** The pending goroutine of [w_opened] has fired. *)
Definition w_answered : World :=
  fire (mkGoroutine 7 1) (mkWorld (w_db w_opened) (w_mail w_opened) (w_log w_opened) []).

(** * Properties *)

(** ** Sorting and counting *)

Lemma elem_of_order_by_id {A : Type} (x : Z * A) (rows : list (Z * A)) :
  x ∈ order_by_id rows ↔ x ∈ rows.
Proof. unfold order_by_id. by rewrite merge_sort_Permutation. Qed.

Lemma order_by_id_sorted {A : Type} (rows : list (Z * A)) :
  Sorted by_id (order_by_id rows).
Proof. apply (Sorted_merge_sort by_id). Qed.

Lemma count_nonneg {A : Type} (rows : list A) : 0 ≤ count rows.
Proof. unfold count. lia. Qed.

Lemma count_zero {A : Type} (rows : list A) : count rows = 0 ↔ rows = [].
Proof. unfold count. destruct rows; simpl; split; intros; (done || lia). Qed.

Lemma count_app {A : Type} (l k : list A) : count (l ++ k)%list = count l + count k.
Proof. unfold count. rewrite length_app. lia. Qed.

(** ** Plans visible in a region *)

Lemma elem_of_region_plans_of b planId region rows :
  b ∈ region_plans_of planId region rows ↔
  b ∈ rows ∧ rp_plan_id b = planId ∧ rp_region b = region.
Proof. unfold region_plans_of. rewrite list_elem_of_filter. tauto. Qed.

Lemma region_plans_of_nil db planId region :
  region_plans_of planId region (region_plans db) = [] ↔ ¬ bound_in db planId region.
Proof.
  split.
  - intros Hnil (b & Hb & Hid & Hr).
    assert (b ∈ region_plans_of planId region (region_plans db)) as Hin
      by (by apply elem_of_region_plans_of).
    rewrite Hnil in Hin. by apply not_elem_of_nil in Hin.
  - intros Hnot. destruct (region_plans_of planId region (region_plans db)) as [|b bs] eqn:E.
    + done.
    + exfalso. apply Hnot. exists b.
      apply elem_of_region_plans_of. rewrite E. by left.
Qed.

Lemma bound_in_dec db planId region :
  bound_in db planId region ∨ ¬ bound_in db planId region.
Proof.
  destruct (region_plans_of planId region (region_plans db)) as [|b bs] eqn:E.
  - right. by apply region_plans_of_nil.
  - left. exists b. apply elem_of_region_plans_of. rewrite E. by left.
Qed.

Lemma elem_of_left_join region rps (p : Z * plans_row) x :
  x ∈ left_join_region_plans region rps p ↔
  (region_plans_of p.1 region rps = [] ∧ x = (p.1, (p.2, None)))
  ∨ (∃ b, b ∈ region_plans_of p.1 region rps ∧ x = (p.1, (p.2, Some (rp_identification b)))).
Proof.
  unfold left_join_region_plans.
  destruct (region_plans_of p.1 region rps) as [|b bs] eqn:E.
  - rewrite list_elem_of_singleton. split.
    + intros ->. by left.
    + intros [[_ ->]|(b & Hb & _)]; [done|]. by apply not_elem_of_nil in Hb.
  - rewrite list_elem_of_fmap. split.
    + intros (b' & -> & Hb'). right. by exists b'.
    + intros [[Hnil _]|(b' & Hb' & ->)]; [done|]. by exists b'.
Qed.

(** The rows of the listing, one by one: an enabled plan, once for each of its
    bindings to the region with the identification of that binding, or once
    with the empty identification when it is global and has none. *)
Lemma elem_of_planListRegion db region q :
  q ∈ planListRegion db region ↔
  ∃ id row,
    plans db !! id = Some row ∧ p_enabled row = true ∧
    ((∃ b, b ∈ region_plans db ∧ rp_plan_id b = id ∧ rp_region b = region ∧
           q = scan_plan (id, (row, rp_identification b)))
     ∨ (p_global row = true ∧ ¬ bound_in db id region ∧ q = scan_plan (id, (row, "")))).
Proof.
  unfold planListRegion, planListHelper.
  rewrite list_elem_of_fmap. split.
  - intros (r & -> & Hr).
    apply elem_of_order_by_id, list_elem_of_fmap in Hr as (j & -> & Hj).
    apply list_elem_of_filter in Hj as [Hvis Hj].
    apply list_elem_of_bind in Hj as ([id row] & Hj & Hp).
    apply elem_of_map_to_list in Hp.
    exists id, row. split; [done|].
    apply elem_of_left_join in Hj as [[Hnil ->]|(b & Hb & ->)]; simpl in *.
    + unfold visible_in_region in Hvis.
      rewrite andb_true_iff, orb_true_iff, bool_decide_eq_true in Hvis.
      destruct Hvis as [He [Hg|[? Hg]]]; [|done]. split; [done|]. right.
      split; [done|]. split; [|done]. by apply region_plans_of_nil.
    + unfold visible_in_region in Hvis.
      apply andb_true_iff in Hvis as [He _]. split; [done|]. left.
      apply elem_of_region_plans_of in Hb as (Hb & Hid & Hreg). by exists b.
  - intros (id & row & Hrow & He & Hcase).
    apply elem_of_map_to_list in Hrow.
    destruct Hcase as [(b & Hb & Hid & Hreg & ->)|(Hg & Hnot & ->)].
    + exists (id, (row, rp_identification b)). split; [done|].
      apply elem_of_order_by_id, list_elem_of_fmap.
      exists (id, (row, Some (rp_identification b))). split; [done|].
      apply list_elem_of_filter. split.
      * unfold visible_in_region; simpl. rewrite He; simpl. apply orb_true_r.
      * apply list_elem_of_bind. exists (id, row). split; [|done].
        apply elem_of_left_join. right. exists b. split; [|done].
        by apply elem_of_region_plans_of.
    + exists (id, (row, "")). split; [done|].
      apply elem_of_order_by_id, list_elem_of_fmap.
      exists (id, (row, None)). split; [done|].
      apply list_elem_of_filter. split.
      * unfold visible_in_region; simpl. by rewrite He, Hg.
      * apply list_elem_of_bind. exists (id, row). split; [|done].
        apply elem_of_left_join. left. split; [|done].
        by apply region_plans_of_nil.
Qed.

Lemma planListRegion_sorted db region :
  Sorted (λ a b, Plan_Id a ≤ Plan_Id b) (planListRegion db region).
Proof.
  unfold planListRegion, planListHelper.
  eapply Sorted_fmap; [|apply order_by_id_sorted].
  intros x y Hxy. exact Hxy.
Qed.

Lemma planListRegion_ids db region id :
  id ∈ Plan_Id <$> planListRegion db region ↔
  ∃ row, plans db !! id = Some row ∧ p_enabled row = true ∧
         (p_global row = true ∨ bound_in db id region).
Proof.
  rewrite list_elem_of_fmap. split.
  - intros (q & -> & Hq).
    apply elem_of_planListRegion in Hq as (id & row & Hrow & He & Hcase).
    destruct Hcase as [(b & Hb & Hid & Hreg & ->)|(Hg & Hnot & ->)]; simpl;
      exists row; (split; [done|]); (split; [done|]).
    + right. by exists b.
    + by left.
  - intros (row & Hrow & He & Hcase).
    destruct (bound_in_dec db id region) as [(b & Hb & Hid & Hreg)|Hnot].
    + exists (scan_plan (id, (row, rp_identification b))). split; [done|].
      apply elem_of_planListRegion. exists id, row. do 2 (split; [done|]).
      left. by exists b.
    + destruct Hcase as [Hg|Hbound]; [|done].
      exists (scan_plan (id, (row, ""))). split; [done|].
      apply elem_of_planListRegion. exists id, row. do 2 (split; [done|]).
      by right.
Qed.

(** When no plan is bound twice to the region, the join keeps one row per
    plan, and the listing is, id for id, the one the specification words. *)
Lemma left_join_single region rps (p : Z * plans_row) :
  count (region_plans_of p.1 region rps) ≤ 1 →
  ∃ x, left_join_region_plans region rps p = [x] ∧ x.1 = p.1.
Proof.
  unfold left_join_region_plans, count.
  destruct (region_plans_of p.1 region rps) as [|b [|b' bs]]; simpl; intros Hc.
  - by eexists.
  - by eexists.
  - lia.
Qed.

Lemma left_join_keys region rps (l : list (Z * plans_row)) :
  (∀ id, count (region_plans_of id region rps) ≤ 1) →
  (l ≫= left_join_region_plans region rps).*1 = l.*1.
Proof.
  intros Hone. induction l as [|p l IH]; [done|].
  rewrite bind_cons, fmap_app, IH.
  destruct (left_join_single region rps p (Hone p.1)) as (x & -> & Hx).
  simpl. by rewrite Hx.
Qed.

Lemma planListRegion_NoDup db region :
  (∀ id, count (region_plans_of id region (region_plans db)) ≤ 1) →
  NoDup (Plan_Id <$> planListRegion db region).
Proof.
  intros Hone. unfold planListRegion, planListHelper, order_by_id.
  rewrite <- list_fmap_compose.
  change (Plan_Id ∘ scan_plan) with (@fst Z (plans_row * string)).
  rewrite merge_sort_Permutation, <- list_fmap_compose.
  change (fst ∘ ifnull_identification) with (@fst Z (plans_row * option string)).
  eapply sublist_NoDup; [|apply fmap_sublist, sublist_filter].
  rewrite left_join_keys by done. apply NoDup_fst_map_to_list.
Qed.

Lemma visible_plan_ids_spec db region :
  Sorted Z.le (visible_plan_ids db region)
  ∧ NoDup (visible_plan_ids db region)
  ∧ (∀ id, id ∈ visible_plan_ids db region ↔
           ∃ row, plans db !! id = Some row ∧ p_enabled row = true ∧
                  (p_global row = true ∨ bound_in db id region)).
Proof.
  unfold visible_plan_ids. split; [|split].
  - eapply Sorted_fmap; [|apply order_by_id_sorted]. intros x y Hxy. exact Hxy.
  - unfold order_by_id. rewrite merge_sort_Permutation.
    eapply sublist_NoDup; [apply (NoDup_fst_map_to_list (plans db))|].
    apply fmap_sublist, sublist_filter.
  - intros id. rewrite list_elem_of_fmap. split.
    + intros ([i row] & -> & Hin).
      apply elem_of_order_by_id, list_elem_of_filter in Hin as [Hvis Hin].
      apply elem_of_map_to_list in Hin. exists row. simpl in *. tauto.
    + intros (row & Hrow & Hvis). exists (id, row). split; [done|].
      apply elem_of_order_by_id, list_elem_of_filter. split; [done|].
      by apply elem_of_map_to_list.
Qed.

Lemma planListRegion_refines db region :
  (∀ id, count (region_plans_of id region (region_plans db)) ≤ 1) →
  Plan_Id <$> planListRegion db region = visible_plan_ids db region.
Proof.
  intros Hone.
  destruct (visible_plan_ids_spec db region) as (Hsorted & Hnodup & Hin).
  apply (Sorted_unique Z.le); [|done|].
  - eapply Sorted_fmap; [|apply planListRegion_sorted]. intros x y Hxy. exact Hxy.
  - apply NoDup_Permutation; [by apply planListRegion_NoDup|done|].
    intros id. by rewrite planListRegion_ids, Hin.
Qed.

(** C1. For every region, [planListRegion] returns exactly the plans that are
    enabled and (global, or bound to the region by a [region_plans] row), by
    ascending plan id: the listing is sorted on [Plan_Id]; a plan id occurs in
    it if and only if its row is enabled and (global or bound); every listed
    [Plan] carries the columns of its own row; a plan that is non-global or
    disabled, and has no binding for the region, is not listed; and when no
    plan is bound to the region by more than one row, the listed ids are,
    one for one, those of the listing as the specification words it. *)
Theorem planListRegion_exact (db : Database) (region : string) :
  Sorted (λ a b, Plan_Id a ≤ Plan_Id b) (planListRegion db region)
  ∧ (∀ id, id ∈ Plan_Id <$> planListRegion db region ↔
           ∃ row, plans db !! id = Some row ∧ p_enabled row = true ∧
                  (p_global row = true ∨ bound_in db id region))
  ∧ (∀ q, q ∈ planListRegion db region →
          ∃ row ident, plans db !! Plan_Id q = Some row ∧
                       q = scan_plan (Plan_Id q, (row, ident)))
  ∧ (∀ id row, plans db !! id = Some row →
               p_global row = false ∨ p_enabled row = false →
               ¬ bound_in db id region →
               id ∉ Plan_Id <$> planListRegion db region)
  ∧ ((∀ id, count (region_plans_of id region (region_plans db)) ≤ 1) →
     Plan_Id <$> planListRegion db region = visible_plan_ids db region).
Proof.
  split; [apply planListRegion_sorted|].
  split; [apply planListRegion_ids|].
  split; [|split; [|apply planListRegion_refines]].
  - intros q Hq.
    apply elem_of_planListRegion in Hq as (id & row & Hrow & _ & Hcase).
    destruct Hcase as [(b & _ & _ & _ & ->)|(_ & _ & ->)]; simpl; eauto.
  - intros id row Hrow Hflags Hnot Hin.
    apply planListRegion_ids in Hin as (row' & Hrow' & He & Hcase).
    assert (row' = row) as -> by congruence.
    destruct Hcase as [Hg|Hb]; [|done].
    destruct Hflags as [Hf|Hf]; congruence.
Qed.

Lemma planListRegion_exact_witness :
  Plan_Id <$> planListRegion db_starter "us-east" = [1]
  ∧ 1 ∉ Plan_Id <$> planListRegion db_starter "eu-west".
Proof.
  destruct (planListRegion_exact db_starter "us-east") as (_ & _ & _ & _ & Hsame).
  destruct (planListRegion_exact db_starter "eu-west") as (_ & _ & _ & Habsent & _).
  split.
  - rewrite Hsame; [reflexivity|].
    intros id. unfold count.
    pose proof (length_filter (λ b, rp_plan_id b = id ∧ rp_region b = "us-east")
                  (region_plans db_starter)) as Hle.
    unfold region_plans_of.
    change (length (region_plans db_starter)) with 1%nat in Hle. lia.
  - apply (Habsent 1 (mkPlansRow "Starter" 500 512 1 10 100 false true)).
    + reflexivity.
    + by left.
    + intros (b & Hb & Hid & Hreg). vm_compute in Hb.
      apply list_elem_of_singleton in Hb as ->. discriminate Hreg.
Defined.

(** ** Deleting a plan *)

(** C8. [planDelete] removes the row of that plan from [plans] and nothing
    else: [region_plans] and [plan_metadata] are the same lists, rows that
    refer to the deleted plan included, every other plan row is the same, and
    so is the rest of the store. *)
Theorem planDelete_frame (db : Database) (planId : Z) :
  plans (planDelete db planId) !! planId = None
  ∧ (∀ other, other ≠ planId → plans (planDelete db planId) !! other = plans db !! other)
  ∧ region_plans (planDelete db planId) = region_plans db
  ∧ plan_metadata (planDelete db planId) = plan_metadata db
  ∧ plans_next (planDelete db planId) = plans_next db
  ∧ tickets (planDelete db planId) = tickets db
  ∧ ticket_messages (planDelete db planId) = ticket_messages db
  ∧ users (planDelete db planId) = users db.
Proof.
  unfold planDelete; simpl. split; [apply lookup_delete_eq|].
  split; [|done]. intros other Hne. by apply lookup_delete_ne.
Qed.

(** ** Binding a plan to a region *)

Lemma set_region_plans_id (f : list region_plans_row → list region_plans_row) db :
  f (region_plans db) = region_plans db → set_region_plans f db = db.
Proof. intros Hf. destruct db; unfold set_region_plans; simpl in *. by rewrite Hf. Qed.

Lemma region_plans_of_insert planId region ident rows :
  region_plans_of planId region (insert_region_plans planId region ident rows)
  = (region_plans_of planId region rows ++ [mkRegionPlansRow planId region ident])%list.
Proof.
  unfold region_plans_of, insert_region_plans.
  rewrite filter_app, filter_cons_True by done. done.
Qed.

Lemma region_plans_of_update ident planId region rows :
  region_plans_of planId region (update_region_plans ident planId region rows)
  = (λ _, mkRegionPlansRow planId region ident) <$> region_plans_of planId region rows.
Proof.
  unfold region_plans_of, update_region_plans.
  induction rows as [|b rows IH]; [done|].
  rewrite fmap_cons. case_bool_decide as Hb.
  - rewrite !filter_cons_True by (simpl; tauto).
    rewrite fmap_cons, IH. by destruct Hb as [-> ->].
  - rewrite !filter_cons_False by done. apply IH.
Qed.

(** Writing the identification that the matching rows already carry changes
    nothing. *)
Lemma update_region_plans_same ident planId region rows :
  (∀ b, b ∈ region_plans_of planId region rows → rp_identification b = ident) →
  update_region_plans ident planId region rows = rows.
Proof.
  intros Hall. unfold update_region_plans.
  induction rows as [|b rows IH]; [done|].
  rewrite fmap_cons. f_equal.
  - case_bool_decide as Hb; [|done].
    rewrite <- (Hall b); [by destruct b|].
    apply elem_of_region_plans_of. split; [by left|done].
  - apply IH. intros b' Hb'. apply Hall.
    apply elem_of_region_plans_of in Hb' as (? & ? & ?).
    apply elem_of_region_plans_of. split; [by right|done].
Qed.

Lemma planAssociateRegion_error ri db planId region ident :
  (planAssociateRegion ri db planId region ident).2
  = match ri !! region with
    | None => Some (FmtErrorf "specified region %s does not exist" region)
    | Some _ => None
    end.
Proof. unfold planAssociateRegion. destruct (ri !! region); [|done]. by case_bool_decide. Qed.

Lemma planAssociateRegion_unknown ri db planId region ident :
  ri !! region = None → (planAssociateRegion ri db planId region ident).1 = db.
Proof. intros Hri. unfold planAssociateRegion. by rewrite Hri. Qed.

(** What one call leaves for the pair, by the number of rows it finds. *)
Lemma planAssociateRegion_bindings ri db planId region ident :
  is_Some (ri !! region) →
  region_plans_of planId region
    (region_plans (planAssociateRegion ri db planId region ident).1)
  = if bool_decide (count (region_plans_of planId region (region_plans db)) = 1)
    then [mkRegionPlansRow planId region ident]
    else (region_plans_of planId region (region_plans db)
            ++ [mkRegionPlansRow planId region ident])%list.
Proof.
  intros [vmi Hri]. unfold planAssociateRegion. rewrite Hri.
  case_bool_decide as Hc; simpl.
  - rewrite region_plans_of_update.
    destruct (region_plans_of planId region (region_plans db)) as [|b [|b' bs]];
      unfold count in Hc; simpl in Hc; (done || lia).
  - apply region_plans_of_insert.
Qed.

(** A call that finds the pair bound once, to the same identification, leaves
    the store as it is. *)
Lemma planAssociateRegion_again ri db planId region ident :
  is_Some (ri !! region) →
  region_plans_of planId region (region_plans db) = [mkRegionPlansRow planId region ident] →
  (planAssociateRegion ri db planId region ident).1 = db.
Proof.
  intros [vmi Hri] Hone. unfold planAssociateRegion. rewrite Hri, Hone.
  rewrite bool_decide_eq_true_2 by done. simpl.
  apply set_region_plans_id, update_region_plans_same.
  intros b. rewrite Hone. by intros ->%list_elem_of_singleton.
Qed.

(** A table that binds no plan twice to a region stays so under
    [planAssociateRegion] and [planDeassociateRegion]. *)
Lemma count_region_plans_of_update ident planId region id r rows :
  count (region_plans_of id r (update_region_plans ident planId region rows))
  = count (region_plans_of id r rows).
Proof.
  unfold count, region_plans_of, update_region_plans. f_equal.
  induction rows as [|b rows IH]; [done|].
  rewrite fmap_cons.
  destruct (decide (rp_plan_id b = id ∧ rp_region b = r)) as [Hb|Hb].
  - rewrite (filter_cons_True _ b) by done.
    rewrite filter_cons_True by (by case_bool_decide). simpl. by rewrite IH.
  - rewrite (filter_cons_False _ b) by done.
    rewrite filter_cons_False by (by case_bool_decide). done.
Qed.

Lemma planAssociateRegion_keeps_single ri db planId region ident :
  (∀ id r, count (region_plans_of id r (region_plans db)) ≤ 1) →
  ∀ id r, count (region_plans_of id r
                   (region_plans (planAssociateRegion ri db planId region ident).1)) ≤ 1.
Proof.
  intros Hone id r. unfold planAssociateRegion.
  destruct (ri !! region) as [vmi|]; [|apply Hone].
  case_bool_decide as Hc; simpl.
  - rewrite count_region_plans_of_update. apply Hone.
  - unfold region_plans_of, insert_region_plans. rewrite filter_app, count_app.
    destruct (decide (planId = id ∧ region = r)) as [[<- <-]|Hne].
    + rewrite filter_cons_True by done.
      pose proof (Hone planId region) as H1.
      pose proof (count_nonneg (region_plans_of planId region (region_plans db))) as H0.
      unfold region_plans_of in *. unfold count at 2. simpl. lia.
    + rewrite filter_cons_False by done.
      pose proof (Hone id r) as H1. unfold region_plans_of in H1.
      unfold count at 2. simpl. lia.
Qed.

Lemma planDeassociateRegion_keeps_single db planId region :
  (∀ id r, count (region_plans_of id r (region_plans db)) ≤ 1) →
  ∀ id r, count (region_plans_of id r
                   (region_plans (planDeassociateRegion db planId region))) ≤ 1.
Proof.
  intros Hone id r. specialize (Hone id r).
  unfold planDeassociateRegion, region_plans_of, count in *; simpl.
  rewrite list_filter_filter.
  pose proof (length_filter (λ b, ¬ (rp_plan_id b = planId ∧ rp_region b = region))
                (filter (λ b, rp_plan_id b = id ∧ rp_region b = r) (region_plans db))) as Hle.
  rewrite list_filter_filter in Hle.
  rewrite (list_filter_iff _
             (λ a, ¬ (rp_plan_id a = planId ∧ rp_region a = region)
                   ∧ rp_plan_id a = id ∧ rp_region a = r)) by (intros ?; tauto).
  lia.
Qed.

(** C4, as amended.  [planAssociateRegion] returns the unknown-region error
    exactly when the region is not a key of [regionInterfaces], and then
    leaves the store alone.  For a known region, and a store that holds at
    most one row for the (plan, region) pair, two calls in succession with the
    same arguments leave exactly one row for the pair, with that
    identification, and the second call changes nothing. *)
Theorem planAssociateRegion_upsert (ri : gmap string VmInterface) (db : Database)
    (planId : Z) (region ident : string) :
  ((planAssociateRegion ri db planId region ident).2
     = Some (FmtErrorf "specified region %s does not exist" region) ↔ ri !! region = None)
  ∧ ((planAssociateRegion ri db planId region ident).2 = None ↔ is_Some (ri !! region))
  ∧ (ri !! region = None → (planAssociateRegion ri db planId region ident).1 = db)
  ∧ (is_Some (ri !! region) →
     count (region_plans_of planId region (region_plans db)) ≤ 1 →
     region_plans_of planId region (region_plans (associate_twice ri db planId region ident))
       = [mkRegionPlansRow planId region ident]
     ∧ associate_twice ri db planId region ident
       = (planAssociateRegion ri db planId region ident).1).
Proof.
  rewrite planAssociateRegion_error.
  split; [destruct (ri !! region); split; (done || by intros [? ?])|].
  split; [destruct (ri !! region); split; (done || by intros [? ?] || eauto)|].
  split; [apply planAssociateRegion_unknown|].
  intros Hri Hcount.
  assert (region_plans_of planId region
            (region_plans (planAssociateRegion ri db planId region ident).1)
          = [mkRegionPlansRow planId region ident]) as Hone.
  { rewrite planAssociateRegion_bindings by done.
    case_bool_decide as Hc; [done|].
    destruct (region_plans_of planId region (region_plans db)) as [|b bs]; [done|].
    unfold count in *; simpl in *.
    destruct bs; simpl in *; lia. }
  unfold associate_twice.
  rewrite planAssociateRegion_again by done. done.
Qed.

Lemma planAssociateRegion_upsert_witness :
  region_plans_of 1 "us-east"
    (region_plans (associate_twice us_east_only empty_db 1 "us-east" "ext-123"))
  = [mkRegionPlansRow 1 "us-east" "ext-123"]
  ∧ associate_twice us_east_only empty_db 1 "us-east" "ext-123"
    = (planAssociateRegion us_east_only empty_db 1 "us-east" "ext-123").1.
Proof.
  apply (planAssociateRegion_upsert us_east_only empty_db 1 "us-east" "ext-123").
  - by eexists.
  - vm_compute. by intros ?.
Defined.

(** C4, as stated, fails on a store that already holds two rows for the pair:
    the count is not 1, so each call inserts a further row, and the two calls
    leave four rows. *)
Lemma planAssociateRegion_two_rows_grow :
  is_Some (us_east_only !! "us-east")
  ∧ count (region_plans_of 1 "us-east" (region_plans db_two_bindings)) = 2
  ∧ count (region_plans_of 1 "us-east"
             (region_plans (associate_twice us_east_only db_two_bindings 1 "us-east" "ext-1")))
    = 4
  ∧ ¬ (∀ (ri : gmap string VmInterface) db planId region ident,
         is_Some (ri !! region) →
         region_plans_of planId region
           (region_plans (associate_twice ri db planId region ident))
         = [mkRegionPlansRow planId region ident]).
Proof.
  split; [by eexists|]. split; [by vm_compute|]. split; [by vm_compute|].
  intros Hclaim.
  specialize (Hclaim us_east_only db_two_bindings 1 "us-east" "ext-1").
  assert (is_Some (us_east_only !! "us-east")) as Hri by (by eexists).
  apply Hclaim in Hri. vm_compute in Hri. discriminate Hri.
Qed.

(** ** Populating a region from its provider *)

Section autopopulate.

Variable ri : gmap string VmInterface.
Variable enabled_default : bool.
Variable region : string.
Hypothesis region_known : is_Some (ri !! region).

Local Abbreviation step := (autopopulate_step ri enabled_default region).
Local Abbreviation identified_in := (identified_in region).

Lemma identified_in_app db db' p extra :
  region_plans db' = (region_plans db ++ extra)%list →
  identified_in db p → identified_in db' p.
Proof.
  unfold identified_in, region_plans_identified. intros -> Hne.
  rewrite filter_app. intros [Hnil _]%app_eq_nil. done.
Qed.

(** An identification that is bound already: the iteration does nothing. *)
Lemma autopopulate_step_skip db p : identified_in db p → step db p = db.
Proof.
  unfold identified_in. intros Hne. unfold step, autopopulate_step.
  rewrite bool_decide_eq_false_2; [done|]. by rewrite count_zero.
Qed.

(** One that is not: a plan row is created under the next id and a binding
    row is inserted for it, because no row of the region carries that id. *)
Lemma autopopulate_step_create db p :
  bindings_allocated db region → ¬ identified_in db p →
  step db p
  = set_region_plans
      (insert_region_plans (plans_next db) region (Plan_Identification p))
      (planCreate enabled_default db (Plan_Name p) (Plan_Price p) (Plan_Ram p) (Plan_Cpu p)
         (Plan_Storage p) (Plan_Bandwidth p) false).1.
Proof.
  intros Halloc Hnot. unfold step, autopopulate_step.
  rewrite bool_decide_eq_true_2.
  2:{ apply count_zero. unfold identified_in in Hnot.
      destruct (region_plans_identified _ _ _); [done|]. by destruct Hnot. }
  unfold planCreate, planAssociateRegion. destruct region_known as [vmi ->].
  rewrite bool_decide_eq_false_2; [done|]. simpl.
  assert (region_plans_of (plans_next db) region (region_plans db) = []) as ->; [|done].
  destruct (region_plans_of _ _ _) as [|b bs] eqn:E; [done|].
  assert (b ∈ region_plans_of (plans_next db) region (region_plans db)) as Hb
    by (rewrite E; by left).
  apply elem_of_region_plans_of in Hb as (Hb & Hid & Hreg).
  specialize (Halloc b Hb Hreg). lia.
Qed.

(** What one iteration keeps and establishes. *)
Lemma autopopulate_step_spec db p :
  bindings_allocated db region →
  bindings_allocated (step db p) region
  ∧ identified_in (step db p) p
  ∧ (∃ extra, region_plans (step db p) = (region_plans db ++ extra)%list)
  ∧ (∀ id row, plans (step db p) !! id = Some row →
               plans db !! id = Some row ∨ p_global row = false).
Proof.
  intros Halloc.
  destruct (region_plans_identified region (Plan_Identification p) (region_plans db))
    as [|b0 bs] eqn:E.
  - assert (¬ identified_in db p) as Hnot by (unfold identified_in; rewrite E; intros H; by apply H).
    rewrite autopopulate_step_create by done.
    unfold planCreate, insert_region_plans; simpl.
    split; [|split; [|split]].
    + intros b Hb Hreg; simpl in *.
      apply elem_of_app in Hb as [Hb|Hb].
      * specialize (Halloc b Hb Hreg). lia.
      * apply list_elem_of_singleton in Hb as ->. simpl. lia.
    + unfold identified_in, region_plans_identified; simpl.
      rewrite filter_app, filter_cons_True by done.
      intros [_ Hnil]%app_eq_nil. done.
    + by eexists.
    + intros id row. rewrite lookup_insert. case_decide; [|by left].
      intros [= <-]. by right.
  - assert (identified_in db p) as Hyes by (unfold identified_in; by rewrite E).
    rewrite autopopulate_step_skip by done.
    split; [done|]. split; [done|]. split; [|by left].
    exists []. by rewrite app_nil_r.
Qed.

Lemma autopopulate_loop_spec ps db :
  bindings_allocated db region →
  bindings_allocated (fold_left step ps db) region
  ∧ (∀ p, p ∈ ps → identified_in (fold_left step ps db) p)
  ∧ (∃ extra, region_plans (fold_left step ps db) = (region_plans db ++ extra)%list)
  ∧ (∀ id row, plans (fold_left step ps db) !! id = Some row →
               plans db !! id = Some row ∨ p_global row = false).
Proof.
  revert db. induction ps as [|p ps IH]; intros db Halloc; simpl.
  - split; [done|]. split; [by intros p ?%not_elem_of_nil|].
    split; [|by left]. exists []. by rewrite app_nil_r.
  - destruct (autopopulate_step_spec db p Halloc) as (Halloc1 & Hp & [e1 He1] & Hplans1).
    destruct (IH (step db p) Halloc1) as (Halloc2 & Hps & [e2 He2] & Hplans2).
    split; [done|]. split; [|split].
    + intros q [->|Hq]%elem_of_cons; [|by apply Hps].
      by eapply identified_in_app.
    + exists (e1 ++ e2)%list. by rewrite He2, He1, app_assoc.
    + intros id row Hrow.
      destruct (Hplans2 id row Hrow) as [Hold|Hnew]; [|by right].
      by apply Hplans1.
Qed.

(** A run over identifications that are all bound is the identity. *)
Lemma autopopulate_loop_skip ps db :
  (∀ p, p ∈ ps → identified_in db p) → fold_left step ps db = db.
Proof.
  induction ps as [|p ps IH]; intros Hall; simpl; [done|].
  rewrite autopopulate_step_skip by (apply Hall; by left).
  apply IH. intros q Hq. apply Hall. by right.
Qed.

End autopopulate.

(** C5, as amended.  For a recognised region whose provider enumerates its
    plans and gives the same list both times, and a store in which no binding
    of that region refers to a plan id that [plans] has yet to hand out, the
    first run of [planAutopopulate] succeeds and leaves every listed
    identification bound in the region, so the second run inserts no plan row
    and no binding row (it returns the store of the first run unchanged);
    every plan row the first run writes is non-global. *)
Theorem planAutopopulate_twice (ri : gmap string VmInterface) (enabled_default : bool)
    (db : Database) (region : string) (vmi : VmInterface) (ps : list Plan) :
  ri !! region = Some vmi →
  vmi_PlanList vmi = Some (ps, None) →
  bindings_allocated db region →
  (planAutopopulate ri enabled_default db region).2 = None
  ∧ (∀ p, p ∈ ps →
          count (region_plans_identified region (Plan_Identification p)
                   (region_plans (planAutopopulate ri enabled_default db region).1)) ≠ 0)
  ∧ planAutopopulate ri enabled_default
      (planAutopopulate ri enabled_default db region).1 region
    = ((planAutopopulate ri enabled_default db region).1, None)
  ∧ (∀ id row,
       plans (planAutopopulate ri enabled_default db region).1 !! id = Some row →
       plans db !! id ≠ Some row → p_global row = false).
Proof.
  intros Hri Hlist Halloc.
  assert (is_Some (ri !! region)) as Hknown by (by eexists).
  unfold planAutopopulate. rewrite Hri, Hlist. simpl.
  destruct (autopopulate_loop_spec ri enabled_default region Hknown ps db Halloc)
    as (_ & Hbound & _ & Hplans).
  split; [done|]. split; [|split].
  - intros p Hp. rewrite count_zero. by apply Hbound.
  - by rewrite autopopulate_loop_skip.
  - intros id row Hrow Hne. by destruct (Hplans id row Hrow).
Qed.

Lemma planAutopopulate_twice_witness :
  (planAutopopulate us_east_only true empty_db "us-east").2 = None
  ∧ planAutopopulate us_east_only true
      (planAutopopulate us_east_only true empty_db "us-east").1 "us-east"
    = ((planAutopopulate us_east_only true empty_db "us-east").1, None).
Proof.
  destruct (planAutopopulate_twice us_east_only true empty_db "us-east"
              (mkVmInterface
                 (Some ([provider_plan "Small" "A"; provider_plan "Large" "B"], None)))
              [provider_plan "Small" "A"; provider_plan "Large" "B"])
    as (Herr & _ & Hsame & _).
  - reflexivity.
  - reflexivity.
  - intros b Hb. vm_compute in Hb. by apply not_elem_of_nil in Hb.
  - split; [exact Herr|exact Hsame].
Defined.

(** C5, as stated, fails when the region holds a binding for the plan id that
    [plans] hands out next.  The provider lists A and B, and plan 1, which
    does not exist yet, is bound to A.  The first run skips A, creates plan 1
    for B and, finding one row for (1, region), overwrites its identification
    with B: A is bound no longer.  The second run therefore creates a plan
    for A and a binding for it. *)
Lemma planAutopopulate_second_run_inserts :
  let db1 := (planAutopopulate us_east_only true db_early_binding "us-east").1 in
  let db2 := (planAutopopulate us_east_only true db1 "us-east").1 in
  us_east_only !! "us-east"
    = Some (mkVmInterface
              (Some ([provider_plan "Small" "A"; provider_plan "Large" "B"], None)))
  ∧ region_plans db_early_binding = [mkRegionPlansRow 1 "us-east" "A"]
  ∧ region_plans db1 = [mkRegionPlansRow 1 "us-east" "B"]
  ∧ size (plans db1) = 1%nat
  ∧ region_plans db2 = [mkRegionPlansRow 1 "us-east" "B"; mkRegionPlansRow 2 "us-east" "A"]
  ∧ size (plans db2) = 2%nat
  ∧ db2 ≠ db1.
Proof.
  repeat split; by vm_compute.
Qed.

(** ** Reading a ticket *)

(** A selection on a keyed table that fixes the key has at most one row. *)
Lemma select_by_key {A : Type} (Q : Z * A → Prop) `{∀ r, Decision (Q r)}
    (m : gmap Z A) (k : Z) :
  (∀ r, Q r → r.1 = k) →
  filter Q (map_to_list m)
  = match m !! k with
    | Some v => if decide (Q (k, v)) then [(k, v)] else []
    | None => []
    end.
Proof.
  intros Hkey.
  assert (∀ r, r ∈ filter Q (map_to_list m) ↔ Q r ∧ m !! r.1 = Some r.2) as Hin.
  { intros [i v]. by rewrite list_elem_of_filter, elem_of_map_to_list. }
  destruct (m !! k) as [v|] eqn:Hk; [destruct (decide (Q (k, v))) as [Hq|Hq]|].
  - apply Permutation_singleton_r, NoDup_Permutation.
    + apply NoDup_filter, NoDup_map_to_list.
    + apply NoDup_singleton.
    + intros [i v']. rewrite Hin, list_elem_of_singleton. simpl. split.
      * intros [Hq' Hi]. apply Hkey in Hq' as Hik. simpl in Hik. subst i. congruence.
      * intros [= -> ->]. done.
  - apply elem_of_nil_inv. intros [i v']. rewrite Hin. simpl.
    intros [Hq' Hi]. apply Hkey in Hq' as Hik. simpl in Hik. subst i.
    assert (v' = v) as -> by congruence. done.
  - apply elem_of_nil_inv. intros [i v']. rewrite Hin. simpl.
    intros [Hq' Hi]. apply Hkey in Hq' as Hik. simpl in Hik. subst i. congruence.
Qed.

(** [ticketDetails] by the row of the ticket: staff read any ticket, a
    customer only a ticket of their own. *)
Lemma ticketDetails_lookup db userId ticketId staff :
  ticketDetails db userId ticketId staff
  = match tickets db !! ticketId with
    | Some row =>
      if staff || bool_decide (t_user_id row = userId)
      then Some (ticket_of_row db ticketId row)
      else None
    | None => None
    end.
Proof.
  unfold ticketDetails, ticketListHelper. destruct staff; simpl.
  - rewrite (select_by_key (λ r : Z * tickets_row, r.1 = ticketId) (tickets db) ticketId)
      by done.
    destruct (tickets db !! ticketId) as [row|]; [|done].
    by rewrite decide_True by done.
  - rewrite (select_by_key (λ r : Z * tickets_row, t_user_id r.2 = userId ∧ r.1 = ticketId)
               (tickets db) ticketId) by (by intros r [_ ?]).
    destruct (tickets db !! ticketId) as [row|]; [|done].
    case_bool_decide as Hu.
    + by rewrite decide_True by done.
    + rewrite decide_False; [done|]. simpl. tauto.
Qed.

Lemma elem_of_select_messages db ticketId (r : Z * ticket_messages_row) :
  r ∈ select_messages ticketId db ↔
  ticket_messages db !! r.1 = Some r.2 ∧ m_ticket_id r.2 = ticketId.
Proof.
  unfold select_messages. destruct r as [i v].
  rewrite elem_of_order_by_id, list_elem_of_filter, elem_of_map_to_list. tauto.
Qed.

Lemma select_messages_NoDup db ticketId : NoDup (select_messages ticketId db).*1.
Proof.
  unfold select_messages, order_by_id.
  rewrite merge_sort_Permutation.
  eapply sublist_NoDup; [apply (NoDup_fst_map_to_list (ticket_messages db))|].
  apply fmap_sublist, sublist_filter.
Qed.

(** The thread of a ticket: its messages, each once, by ascending id. *)
Lemma ticket_of_row_messages db ticketId row :
  Sorted (λ a b, TicketMessage_Id a ≤ TicketMessage_Id b)
    (Ticket_Messages (ticket_of_row db ticketId row))
  ∧ NoDup (TicketMessage_Id <$> Ticket_Messages (ticket_of_row db ticketId row))
  ∧ (∀ msg, msg ∈ Ticket_Messages (ticket_of_row db ticketId row) ↔
            ∃ id mrow, ticket_messages db !! id = Some mrow ∧ m_ticket_id mrow = ticketId ∧
                       msg = scan_message (id, mrow)).
Proof.
  unfold ticket_of_row; simpl. split; [|split].
  - eapply Sorted_fmap; [|apply order_by_id_sorted]. intros x y Hxy. exact Hxy.
  - rewrite <- list_fmap_compose.
    apply (select_messages_NoDup db ticketId).
  - intros msg. rewrite list_elem_of_fmap. split.
    + intros ([id mrow] & -> & Hr). apply elem_of_select_messages in Hr as [? ?].
      by exists id, mrow.
    + intros (id & mrow & Hrow & Htid & ->). exists (id, mrow). split; [done|].
      by apply elem_of_select_messages.
Qed.

(** C7. [ticketDetails] returns the one ticket with that id, with the columns
    of its row and its whole thread, each message once, by ascending message
    id.  A customer ([staff = false]) gets it exactly when the ticket exists
    and belongs to [userId], and [nil] otherwise; staff ([staff = true]) get
    it for every existing ticket id, whoever owns it. *)
Theorem ticketDetails_scoped (db : Database) (userId ticketId : Z) (staff : bool) :
  (∀ t, ticketDetails db userId ticketId staff = Some t →
        ∃ row, tickets db !! ticketId = Some row
               ∧ Ticket_Id t = ticketId
               ∧ Ticket_UserId t = t_user_id row
               ∧ Ticket_Name t = t_name row
               ∧ Ticket_Status t = t_status row
               ∧ Sorted (λ a b, TicketMessage_Id a ≤ TicketMessage_Id b) (Ticket_Messages t)
               ∧ NoDup (TicketMessage_Id <$> Ticket_Messages t)
               ∧ (∀ msg, msg ∈ Ticket_Messages t ↔
                         ∃ id mrow, ticket_messages db !! id = Some mrow ∧
                                    m_ticket_id mrow = ticketId ∧
                                    msg = scan_message (id, mrow)))
  ∧ (is_Some (ticketDetails db userId ticketId false) ↔
     ∃ row, tickets db !! ticketId = Some row ∧ t_user_id row = userId)
  ∧ (∀ row, tickets db !! ticketId = Some row → t_user_id row ≠ userId →
            ticketDetails db userId ticketId false = None)
  ∧ (tickets db !! ticketId = None → ticketDetails db userId ticketId false = None)
  ∧ (is_Some (ticketDetails db userId ticketId true) ↔ is_Some (tickets db !! ticketId)).
Proof.
  rewrite !ticketDetails_lookup.
  split; [|split; [|split; [|split]]].
  - intros t Ht. destruct (tickets db !! ticketId) as [row|]; [|done].
    destruct (staff || bool_decide (t_user_id row = userId)); [|done].
    injection Ht as <-. exists row.
    destruct (ticket_of_row_messages db ticketId row) as (Hs & Hn & Hm).
    repeat (split; [done|]). done.
  - destruct (tickets db !! ticketId) as [row|]; simpl.
    + case_bool_decide as Hu; split.
      * intros _. by exists row.
      * intros _. by eexists.
      * by intros [? ?].
      * intros (row' & [= <-] & ?). done.
    + split; [by intros [? ?]|by intros (? & ? & ?)].
  - intros row -> Hne. simpl. by rewrite bool_decide_eq_false_2.
  - by intros ->.
  - destruct (tickets db !! ticketId) as [row|]; simpl; split; (done || by eexists).
Qed.

(** ** Opening, answering and closing a ticket *)

Section tickets.

Variable AdminEmail : string.

(** The outcome of the three checks of [ticketOpen], in their order. *)
Lemma ticketOpen_empty w userId name message staff :
  name = "" ∨ message = "" →
  ticketOpen AdminEmail w userId name message staff
  = (w, (0, Some (LError "subject_message_empty"))).
Proof.
  intros Hempty. unfold ticketOpen.
  destruct Hempty as [->| ->]; simpl; [done|].
  by rewrite orb_true_r.
Qed.

Lemma ticketOpen_too_long w userId name message staff :
  name ≠ "" → message ≠ "" → 16384 < Z.of_nat (String.length message) →
  ticketOpen AdminEmail w userId name message staff
  = (w, (0, Some (LErrorf "message_too_long" "15,000"))).
Proof.
  intros Hn Hm Hlen. unfold ticketOpen.
  rewrite !bool_decide_eq_false_2 by done. simpl.
  rewrite bool_decide_eq_true_2 by lia. done.
Qed.

Lemma ticketOpen_not_provisioned w userId name message :
  name ≠ "" → message ≠ "" → Z.of_nat (String.length message) ≤ 16384 →
  ¬ provisioned (w_db w) userId →
  ticketOpen AdminEmail w userId name message false
  = (w, (0, Some (LErrorf "ticket_for_support" AdminEmail))).
Proof.
  intros Hn Hm Hlen Hprov. unfold ticketOpen.
  rewrite !bool_decide_eq_false_2 by (done || lia). simpl.
  unfold userDetails, provisioned in *.
  destruct (users (w_db w) !! userId) as [u|]; [|done].
  rewrite bool_decide_eq_true_2; [done|].
  destruct (decide (u_status u = "new")) as [|Hne]; [done|].
  exfalso. apply Hprov. by exists u.
Qed.

Lemma ticketOpen_success w userId name message staff :
  name ≠ "" → message ≠ "" → Z.of_nat (String.length message) ≤ 16384 →
  staff = true ∨ provisioned (w_db w) userId →
  (ticketOpen AdminEmail w userId name message staff).2 = (tickets_next (w_db w), None)
  ∧ tickets (w_db (ticketOpen AdminEmail w userId name message staff).1)
      !! tickets_next (w_db w)
    = Some (mkTicketsRow userId name "open" (now (w_db w)) (now (w_db w)))
  ∧ w_goroutines (ticketOpen AdminEmail w userId name message staff).1
    = (w_goroutines w
         ++ if staff then [] else [mkGoroutine userId (tickets_next (w_db w))])%list.
Proof.
  intros Hn Hm Hlen Hok. unfold ticketOpen.
  rewrite !bool_decide_eq_false_2 by (done || lia). simpl.
  assert (negb staff &&
          match userDetails (w_db w) userId with
          | Some u => bool_decide (u_status u = "new")
          | None => true
          end = false) as ->.
  { destruct Hok as [->|(u & Hu & Hne)]; [done|].
    unfold userDetails. rewrite Hu, bool_decide_eq_false_2 by done.
    apply andb_false_r. }
  destruct staff; simpl; rewrite lookup_insert_eq, ?app_nil_r; done.
Qed.

End tickets.

Lemma ticketReply_error w userId ticketId message staff :
  (ticketReply w userId ticketId message staff).2
  = if bool_decide (message = "") then Some (LError "message_empty")
    else match ticketDetails (w_db w) userId ticketId staff with
         | None => Some (LError "invalid_ticket")
         | Some _ => None
         end.
Proof.
  unfold ticketReply. case_bool_decide; [done|].
  by destruct (ticketDetails (w_db w) userId ticketId staff).
Qed.

Lemma ticketReply_rejected w userId ticketId message staff :
  (ticketReply w userId ticketId message staff).2 ≠ None →
  (ticketReply w userId ticketId message staff).1 = w.
Proof.
  unfold ticketReply. case_bool_decide; [done|].
  by destruct (ticketDetails (w_db w) userId ticketId staff).
Qed.

(** A reply that passes the two checks: the ticket row keeps its owner and
    subject and takes the status of the author's role, whatever its status
    was; only a customer's reply starts a goroutine. *)
Lemma ticketReply_success w userId ticketId message staff t :
  message ≠ "" →
  ticketDetails (w_db w) userId ticketId staff = Some t →
  ∃ row,
    tickets (w_db w) !! ticketId = Some row
    ∧ (ticketReply w userId ticketId message staff).2 = None
    ∧ tickets (w_db (ticketReply w userId ticketId message staff).1) !! ticketId
      = Some (mkTicketsRow (t_user_id row) (t_name row)
                (if staff then "answered" else "open") (t_time row) (now (w_db w)))
    ∧ w_goroutines (ticketReply w userId ticketId message staff).1
      = (w_goroutines w ++ if staff then [] else [mkGoroutine userId ticketId])%list.
Proof.
  intros Hm Ht. unfold ticketReply.
  rewrite bool_decide_eq_false_2 by done. rewrite Ht.
  rewrite ticketDetails_lookup in Ht.
  destruct (tickets (w_db w) !! ticketId) as [row|] eqn:Hrow; [|done].
  exists row. split; [done|].
  destruct staff; simpl; rewrite lookup_alter_eq, Hrow, ?app_nil_r; done.
Qed.

Lemma ticketClose_owner w userId ticketId row :
  tickets (w_db w) !! ticketId = Some row → t_user_id row = userId →
  tickets (w_db (ticketClose w userId ticketId)) !! ticketId
  = Some (mkTicketsRow (t_user_id row) (t_name row) "closed" (t_time row) (now (w_db w))).
Proof.
  intros Hrow Hu. unfold ticketClose, close_ticket_of; simpl.
  rewrite lookup_alter_eq, Hrow. simpl. by rewrite bool_decide_eq_true_2.
Qed.

Lemma provisioned_dec db userId : provisioned db userId ∨ ¬ provisioned db userId.
Proof.
  unfold provisioned. destruct (users db !! userId) as [u|] eqn:Hu.
  - destruct (decide (u_status u = "new")) as [Hnew|Hne].
    + right. intros (u' & [= <-] & ?). done.
    + left. by exists u.
  - right. by intros (u' & ? & ?).
Qed.

(** [ticketOpen] returns no error only when the three checks pass. *)
Lemma ticketOpen_accepts AdminEmail w userId name message staff :
  (ticketOpen AdminEmail w userId name message staff).2.2 = None →
  name ≠ "" ∧ message ≠ "" ∧ Z.of_nat (String.length message) ≤ 16384
  ∧ (staff = true ∨ provisioned (w_db w) userId).
Proof.
  intros Hok.
  destruct (decide (name = "")) as [Hn|Hn];
    [by rewrite ticketOpen_empty in Hok by (by left)|].
  destruct (decide (message = "")) as [Hm|Hm];
    [by rewrite ticketOpen_empty in Hok by (by right)|].
  destruct (decide (16384 < Z.of_nat (String.length message))) as [Hlen|Hlen];
    [by rewrite ticketOpen_too_long in Hok by done|].
  do 2 (split; [done|]). split; [lia|].
  destruct staff; [by left|]. right.
  destruct (provisioned_dec (w_db w) userId) as [Hp|Hp]; [done|].
  by rewrite ticketOpen_not_provisioned in Hok by (done || lia).
Qed.

(** C2. The status a ticket is left with: [ticketOpen], when it returns no
    error, has created the ticket it names with status open; [ticketReply],
    when it returns no error, leaves the ticket answered for a staff reply
    and open for a customer reply; [ticketClose] called by the owner of the
    ticket leaves it closed, whatever its status was. *)
Theorem ticket_status_transitions (AdminEmail : string) (w : World) (userId ticketId : Z)
    (name message : string) (staff : bool) :
  (∀ id, (ticketOpen AdminEmail w userId name message staff).2 = (id, None) →
         status_of (w_db (ticketOpen AdminEmail w userId name message staff).1) id
         = Some "open")
  ∧ ((ticketReply w userId ticketId message true).2 = None →
     status_of (w_db (ticketReply w userId ticketId message true).1) ticketId
     = Some "answered")
  ∧ ((ticketReply w userId ticketId message false).2 = None →
     status_of (w_db (ticketReply w userId ticketId message false).1) ticketId
     = Some "open")
  ∧ (∀ row, tickets (w_db w) !! ticketId = Some row → t_user_id row = userId →
            status_of (w_db (ticketClose w userId ticketId)) ticketId = Some "closed").
Proof.
  unfold status_of. split; [|split; [|split]].
  - intros id Hres.
    assert ((ticketOpen AdminEmail w userId name message staff).2.2 = None) as Hok
      by (by rewrite Hres).
    apply ticketOpen_accepts in Hok as (Hn & Hm & Hlen & Hprov).
    destruct (ticketOpen_success AdminEmail w userId name message staff Hn Hm Hlen Hprov)
      as (Hid & Hrow & _).
    rewrite Hres in Hid. injection Hid as ->. by rewrite Hrow.
  - intros Hok. rewrite ticketReply_error in Hok.
    case_bool_decide as Hm; [done|].
    destruct (ticketDetails (w_db w) userId ticketId true) as [t|] eqn:Ht; [|done].
    destruct (ticketReply_success w userId ticketId message true t Hm Ht)
      as (row & _ & _ & Hrow & _).
    by rewrite Hrow.
  - intros Hok. rewrite ticketReply_error in Hok.
    case_bool_decide as Hm; [done|].
    destruct (ticketDetails (w_db w) userId ticketId false) as [t|] eqn:Ht; [|done].
    destruct (ticketReply_success w userId ticketId message false t Hm Ht)
      as (row & _ & _ & Hrow & _).
    by rewrite Hrow.
  - intros row Hrow Hu. by rewrite (ticketClose_owner w userId ticketId row).
Qed.

Lemma ticket_status_transitions_witness :
  status_of (w_db (ticketOpen "admin@example.org" w_start 7 "Help" "hi" false).1) 1
    = Some "open"
  ∧ status_of (w_db (ticketReply w_opened 7 1 "hi" true).1) 1 = Some "answered"
  ∧ status_of (w_db (ticketReply w_opened 7 1 "hi" false).1) 1 = Some "open"
  ∧ status_of (w_db (ticketClose w_opened 7 1)) 1 = Some "closed".
Proof.
  split.
  - apply (ticket_status_transitions "admin@example.org" w_start 7 1 "Help" "hi" false).
    reflexivity.
  - destruct (ticket_status_transitions "admin@example.org" w_opened 7 1 "Help" "hi" false)
      as (_ & Hstaff & Hcustomer & Hclose).
    split; [apply Hstaff; reflexivity|].
    split; [apply Hcustomer; reflexivity|].
    apply (Hclose (mkTicketsRow 7 "Help" "open" 0 0)); reflexivity.
Defined.

(** C3. [ticketOpen] returns the empty-input error when the subject or the
    body is empty; past that check, the too-long error when the body is
    longer than 16384; past both, it succeeds for a body of exactly 16384 when
    the caller is staff or has a provisioned account, and returns the
    account-not-provisioned error to a customer whose account is missing or
    still new.  The length is Go's [len], the number of bytes of the body. *)
Theorem ticketOpen_validation (AdminEmail : string) (w : World) (userId : Z)
    (name message : string) (staff : bool) :
  (name = "" ∨ message = "" →
   ticketOpen AdminEmail w userId name message staff
   = (w, (0, Some (LError "subject_message_empty"))))
  ∧ (name ≠ "" → 16384 < Z.of_nat (String.length message) →
     ticketOpen AdminEmail w userId name message staff
     = (w, (0, Some (LErrorf "message_too_long" "15,000"))))
  ∧ (name ≠ "" → Z.of_nat (String.length message) = 16384 →
     staff = true ∨ provisioned (w_db w) userId →
     (ticketOpen AdminEmail w userId name message staff).2 = (tickets_next (w_db w), None)
     ∧ status_of (w_db (ticketOpen AdminEmail w userId name message staff).1)
         (tickets_next (w_db w)) = Some "open")
  ∧ (name ≠ "" → message ≠ "" → Z.of_nat (String.length message) ≤ 16384 →
     ¬ provisioned (w_db w) userId →
     ticketOpen AdminEmail w userId name message false
     = (w, (0, Some (LErrorf "ticket_for_support" AdminEmail)))).
Proof.
  split; [apply ticketOpen_empty|]. split; [|split].
  - intros Hn Hlen. apply ticketOpen_too_long; [done| |done].
    intros ->. simpl in Hlen. lia.
  - intros Hn Hlen Hprov.
    assert (message ≠ "") as Hm by (intros ->; simpl in Hlen; lia).
    destruct (ticketOpen_success AdminEmail w userId name message staff)
      as (Hres & Hrow & _); [done|done|lia|done|].
    split; [done|]. unfold status_of. by rewrite Hrow.
  - apply ticketOpen_not_provisioned.
Qed.

Lemma ticketOpen_validation_witness :
  ticketOpen "admin@example.org" w_start 7 "Help" "" false
    = (w_start, (0, Some (LError "subject_message_empty")))
  ∧ ticketOpen "admin@example.org" w_start 7 "Help" (letters (Z.to_nat 16385)) false
    = (w_start, (0, Some (LErrorf "message_too_long" "15,000")))
  ∧ (ticketOpen "admin@example.org" w_start 7 "Help" (letters (Z.to_nat 16384)) false).2 = (1, None)
  ∧ ticketOpen "admin@example.org" w_start 8 "Help" "hi" false
    = (w_start, (0, Some (LErrorf "ticket_for_support" "admin@example.org"))).
Proof.
  split; [|split; [|split]].
  - apply (ticketOpen_validation "admin@example.org" w_start 7 "Help" "" false).
    by right.
  - apply (ticketOpen_validation "admin@example.org" w_start 7 "Help" (letters (Z.to_nat 16385)) false).
    + done.
    + by vm_compute.
  - apply (ticketOpen_validation "admin@example.org" w_start 7 "Help" (letters (Z.to_nat 16384)) false).
    + done.
    + by vm_compute.
    + right. exists (mkUsersRow "active"). split; [reflexivity|done].
  - apply (ticketOpen_validation "admin@example.org" w_start 8 "Help" "hi" false).
    + done.
    + done.
    + by vm_compute.
    + intros (u & Hu & _). vm_compute in Hu. discriminate Hu.
Defined.

(** The two errors of [ticketReply]; none of them concerns the status of the
    ticket or the length of the message. *)
Lemma ticketReply_error_kinds w userId ticketId message staff e :
  (ticketReply w userId ticketId message staff).2 = Some e →
  e = LError "message_empty" ∨ e = LError "invalid_ticket".
Proof.
  rewrite ticketReply_error. case_bool_decide.
  - intros [= <-]. by left.
  - destruct (ticketDetails (w_db w) userId ticketId staff); [done|].
    intros [= <-]. by right.
Qed.

(** C9. A reply on a closed ticket is accepted: when the message is not empty
    and [ticketDetails] gives the caller the ticket, with status closed,
    [ticketReply] returns no error and leaves the ticket answered if the reply
    is from staff and open otherwise. *)
Theorem ticketReply_on_closed (w : World) (userId ticketId : Z) (message : string)
    (staff : bool) (t : Ticket) :
  message ≠ "" →
  ticketDetails (w_db w) userId ticketId staff = Some t →
  Ticket_Status t = "closed" →
  (ticketReply w userId ticketId message staff).2 = None
  ∧ status_of (w_db (ticketReply w userId ticketId message staff).1) ticketId
    = Some (if staff then "answered" else "open").
Proof.
  intros Hm Ht _.
  destruct (ticketReply_success w userId ticketId message staff t Hm Ht)
    as (row & _ & Hok & Hrow & _).
  split; [done|]. unfold status_of. by rewrite Hrow.
Qed.

Lemma ticketReply_on_closed_witness :
  status_of (w_db w_closed) 1 = Some "closed"
  ∧ (ticketReply w_closed 7 1 "still broken" false).2 = None
  ∧ status_of (w_db (ticketReply w_closed 7 1 "still broken" false).1) 1 = Some "open".
Proof.
  split; [reflexivity|].
  apply (ticketReply_on_closed w_closed 7 1 "still broken" false
           (ticket_of_row (w_db w_closed) 1 (mkTicketsRow 7 "Help" "closed" 0 0))).
  - done.
  - reflexivity.
  - reflexivity.
Defined.

(** C10. When [ticketOpen] turns a message down for its length, the error is
    [message_too_long] formatted with the literal 15,000, and the length that
    triggers it is any above 16384.  [ticketReply] has no such check: it
    accepts every non-empty message on a ticket the caller can read, and none
    of its errors is a formatted one. *)
Theorem message_length_limit (AdminEmail : string) (w : World) (userId ticketId : Z)
    (name message : string) (staff : bool) :
  (name ≠ "" → 16384 < Z.of_nat (String.length message) →
   (ticketOpen AdminEmail w userId name message staff).2
   = (0, Some (LErrorf "message_too_long" "15,000")))
  ∧ (∀ arg, (ticketOpen AdminEmail w userId name message staff).2.2
            = Some (LErrorf "message_too_long" arg) →
            arg = "15,000" ∧ 16384 < Z.of_nat (String.length message))
  ∧ (message ≠ "" → is_Some (ticketDetails (w_db w) userId ticketId staff) →
     (ticketReply w userId ticketId message staff).2 = None)
  ∧ (∀ key arg, (ticketReply w userId ticketId message staff).2 ≠ Some (LErrorf key arg)).
Proof.
  split; [|split; [|split]].
  - intros Hn Hlen. rewrite ticketOpen_too_long; [done|done| |done].
    intros ->. simpl in Hlen. lia.
  - intros arg Herr.
    destruct (decide (name = "")) as [Hn|Hn];
      [by rewrite ticketOpen_empty in Herr by (by left)|].
    destruct (decide (message = "")) as [Hm|Hm];
      [by rewrite ticketOpen_empty in Herr by (by right)|].
    destruct (decide (16384 < Z.of_nat (String.length message))) as [Hlen|Hlen].
    { rewrite ticketOpen_too_long in Herr by done. by injection Herr as <-. }
    exfalso. destruct staff.
    + destruct (ticketOpen_success AdminEmail w userId name message true) as (Hres & _);
        [done|done|lia|by left|]. by rewrite Hres in Herr.
    + destruct (provisioned_dec (w_db w) userId) as [Hp|Hp].
      * destruct (ticketOpen_success AdminEmail w userId name message false) as (Hres & _);
          [done|done|lia|by right|]. by rewrite Hres in Herr.
      * by rewrite ticketOpen_not_provisioned in Herr by (done || lia).
  - intros Hm [t Ht].
    by destruct (ticketReply_success w userId ticketId message staff t Hm Ht)
      as (row & _ & Hok & _).
  - intros key arg Herr.
    by apply ticketReply_error_kinds in Herr as [?|?].
Qed.

Lemma message_length_limit_witness :
  (ticketOpen "admin@example.org" w_opened 7 "Help" (letters (Z.to_nat 16385)) false).2
    = (0, Some (LErrorf "message_too_long" "15,000"))
  ∧ (ticketReply w_opened 7 1 (letters (Z.to_nat 16385)) false).2 = None.
Proof.
  destruct (message_length_limit "admin@example.org" w_opened 7 1 "Help"
              (letters (Z.to_nat 16385)) false) as (Hopen & _ & Hreply & _).
  split.
  - apply Hopen; [done|by vm_compute].
  - apply Hreply; [done|]. by eexists.
Defined.

(** ** The automatic reply *)

(** C6, as amended.  The automatic reply is written as staff, so it takes the
    branch of [ticketReply] that starts no goroutine: firing it leaves the
    pending goroutines as they are and, when the ticket exists, leaves the
    ticket answered; when the ticket does not exist it changes nothing.  Each
    step of the scheduler therefore lowers the number of pending goroutines by
    one: an automatic reply is never followed by another one of its own. *)
Theorem auto_reply_fires_once (w : World) (g : Goroutine) :
  w_goroutines (fire g w) = w_goroutines w
  ∧ (is_Some (tickets (w_db w) !! g_ticketId g) →
     status_of (w_db (fire g w)) (g_ticketId g) = Some "answered")
  ∧ (tickets (w_db w) !! g_ticketId g = None → fire g w = w)
  ∧ (∀ w', fires w w' → S (length (w_goroutines w')) = length (w_goroutines w)).
Proof.
  assert (∀ w0 g0, w_goroutines (fire g0 w0) = w_goroutines w0) as Hsame.
  { intros w0 g0. unfold fire.
    destruct (ticketDetails (w_db w0) (g_userId g0) (g_ticketId g0) true) as [t|] eqn:Ht.
    - destruct (ticketReply_success w0 (g_userId g0) (g_ticketId g0) auto_reply_text true t)
        as (row & _ & _ & _ & Hg); [done|done|].
      by rewrite Hg, app_nil_r.
    - rewrite ticketReply_rejected; [done|].
      rewrite ticketReply_error, Ht. by case_bool_decide. }
  split; [apply Hsame|]. split; [|split].
  - intros [row Hrow]. unfold fire, status_of.
    destruct (ticketReply_success w (g_userId g) (g_ticketId g) auto_reply_text true
                (ticket_of_row (w_db w) (g_ticketId g) row))
      as (row' & _ & _ & Hrow' & _); [done| |by rewrite Hrow'].
    by rewrite ticketDetails_lookup, Hrow.
  - intros Hnone. unfold fire. apply ticketReply_rejected.
    rewrite ticketReply_error, ticketDetails_lookup, Hnone. by case_bool_decide.
  - intros w' Hfires. destruct Hfires as [w0 g0 before after Hpending].
    rewrite Hsame, Hpending. simpl. rewrite !length_app. simpl. lia.
Qed.

Lemma auto_reply_fires_once_witness :
  status_of (w_db (fire (mkGoroutine 7 1) w_opened)) 1 = Some "answered"
  ∧ S (length (w_goroutines w_answered)) = length (w_goroutines w_opened).
Proof.
  destruct (auto_reply_fires_once w_opened (mkGoroutine 7 1)) as (_ & Hanswered & _ & Hstep).
  split.
  - apply Hanswered. by eexists.
  - apply Hstep. exact (fires_pending w_opened (mkGoroutine 7 1) [] [] eq_refl).
Defined.

(** C6, as stated, fails: after a customer has opened a ticket one goroutine
    is pending; once it has fired the ticket is answered and no goroutine is
    pending, so no further automatic reply follows. *)
Lemma auto_reply_does_not_rearm :
  w_goroutines w_opened = [mkGoroutine 7 1]
  ∧ fires w_opened w_answered
  ∧ status_of (w_db w_answered) 1 = Some "answered"
  ∧ w_goroutines w_answered = []
  ∧ ¬ (∀ w g, is_Some (tickets (w_db w) !! g_ticketId g) →
              ∃ g', w_goroutines (fire g w) = (w_goroutines w ++ [g'])%list).
Proof.
  split; [reflexivity|].
  split; [exact (fires_pending w_opened (mkGoroutine 7 1) [] [] eq_refl)|].
  split; [reflexivity|]. split; [reflexivity|].
  intros Hclaim.
  destruct (Hclaim w_answered (mkGoroutine 7 1)) as [g' Hg']; [by eexists|].
  vm_compute in Hg'. discriminate Hg'.
Qed.

(** * Further properties of the catalog *)

(** ** Reading plans *)

Lemma set_plans_id (f : gmap Z plans_row → gmap Z plans_row) db :
  f (plans db) = plans db → set_plans f db = db.
Proof. intros Hf. destruct db; unfold set_plans; simpl in *. by rewrite Hf. Qed.

Lemma planGet_lookup db planId :
  planGet db planId = (λ row, scan_plan (planId, (row, ""))) <$> plans db !! planId.
Proof.
  unfold planGet, planListHelper.
  rewrite (select_by_key (λ p : Z * plans_row, p.1 = planId) (plans db) planId) by done.
  destruct (plans db !! planId) as [row|]; [|done].
  by rewrite decide_True by done.
Qed.

(** X1. [planCreate] followed by [planGet] on the id it returns gives back the
    plan with the attributes passed in, the [enabled] default and an empty
    identification; every other id reads as before, and the two side tables
    are untouched. *)
Theorem planCreate_planGet (enabled_default : bool) (db : Database) (name : string)
    (price ram cpu storage bandwidth : Z) (global : bool) :
  let created := planCreate enabled_default db name price ram cpu storage bandwidth global in
  created.2 = plans_next db
  ∧ planGet created.1 created.2
    = Some (mkPlan created.2 name price ram cpu storage bandwidth global enabled_default
              "" None None)
  ∧ (∀ other, other ≠ created.2 → planGet created.1 other = planGet db other)
  ∧ region_plans created.1 = region_plans db
  ∧ plan_metadata created.1 = plan_metadata db.
Proof.
  simpl. split; [done|]. rewrite planGet_lookup. simpl.
  rewrite lookup_insert_eq. split; [done|]. split; [|done].
  intros other Hne. rewrite !planGet_lookup. simpl.
  by rewrite lookup_insert_ne.
Qed.

Lemma elem_of_planList db q :
  q ∈ planList db ↔ ∃ id row, plans db !! id = Some row ∧ q = scan_plan (id, (row, "")).
Proof.
  unfold planList, planListHelper. rewrite list_elem_of_fmap. split.
  - intros (r & -> & Hr).
    apply elem_of_order_by_id, list_elem_of_fmap in Hr as ([id row] & -> & Hp).
    apply elem_of_map_to_list in Hp. by exists id, row.
  - intros (id & row & Hrow & ->). exists (id, (row, "")). split; [done|].
    apply elem_of_order_by_id, list_elem_of_fmap. exists (id, row). split; [done|].
    by apply elem_of_map_to_list.
Qed.

(** X2. [planList] lists every plan of the table once, by ascending id, with
    the columns of its row and an empty identification, whether or not the
    plan is enabled. *)
Theorem planList_all (db : Database) :
  Sorted (λ a b, Plan_Id a ≤ Plan_Id b) (planList db)
  ∧ NoDup (Plan_Id <$> planList db)
  ∧ (∀ q, q ∈ planList db ↔
          ∃ id row, plans db !! id = Some row ∧ q = scan_plan (id, (row, "")))
  ∧ length (planList db) = size (plans db).
Proof.
  split; [|split; [|split; [apply elem_of_planList|]]].
  - unfold planList, planListHelper.
    eapply Sorted_fmap; [|apply order_by_id_sorted]. intros x y Hxy. exact Hxy.
  - unfold planList, planListHelper, order_by_id.
    rewrite <- list_fmap_compose.
    change (Plan_Id ∘ scan_plan) with (@fst Z (plans_row * string)).
    rewrite merge_sort_Permutation, <- list_fmap_compose.
    apply (NoDup_fst_map_to_list (plans db)).
  - unfold planList, planListHelper, order_by_id.
    rewrite length_fmap, merge_sort_Permutation, length_fmap.
    apply length_map_to_list.
Qed.

(** ** Deleting, disabling and enabling *)

Lemma bound_in_same_rows db db' planId region :
  region_plans db' = region_plans db →
  bound_in db' planId region ↔ bound_in db planId region.
Proof. unfold bound_in. by intros ->. Qed.

(** X3. A deleted plan is gone from [planGet], from [planList] and from the
    listing of every region, although its bindings stay in [region_plans];
    the ids of the other plans are listed as before. *)
Theorem planDelete_unlisted (db : Database) (planId : Z) (region : string) :
  planGet (planDelete db planId) planId = None
  ∧ (planId ∉ Plan_Id <$> planList (planDelete db planId))
  ∧ (planId ∉ Plan_Id <$> planListRegion (planDelete db planId) region)
  ∧ planGetRegion (planDelete db planId) region planId = None
  ∧ (∀ other, other ≠ planId →
       (other ∈ (Plan_Id <$> planListRegion (planDelete db planId) region) ↔
        other ∈ (Plan_Id <$> planListRegion db region))
       ∧ planGet (planDelete db planId) other = planGet db other).
Proof.
  assert (planId ∉ Plan_Id <$> planListRegion (planDelete db planId) region) as Hnot.
  { rewrite planListRegion_ids. intros (row & Hrow & _).
    unfold planDelete in Hrow. simpl in Hrow. by rewrite lookup_delete_eq in Hrow. }
  split; [|split; [|split; [done|split]]].
  - rewrite planGet_lookup. unfold planDelete; simpl. by rewrite lookup_delete_eq.
  - intros (q & -> & Hq)%list_elem_of_fmap.
    apply elem_of_planList in Hq as (id & row & Hrow & ->). simpl in *.
    unfold planDelete in Hrow; simpl in Hrow. by rewrite lookup_delete_eq in Hrow.
  - unfold planGetRegion.
    destruct (planListHelper _) as [|q [|q' qs]] eqn:Hl; [done| |done].
    exfalso. apply Hnot.
    assert (q ∈ planListHelper
              (ifnull_identification <$>
                 filter (λ r, r.1 = planId ∧ visible_in_region r = true)
                   (map_to_list (plans (planDelete db planId))
                      ≫= left_join_region_plans region (region_plans (planDelete db planId)))))
      as Hq by (rewrite Hl; by left).
    unfold planListHelper in Hq.
    apply list_elem_of_fmap in Hq as (r & -> & Hr).
    apply list_elem_of_fmap in Hr as (j & -> & Hj).
    apply list_elem_of_filter in Hj as [[Hid Hvis] Hj].
    apply list_elem_of_fmap. exists (scan_plan (ifnull_identification j)).
    split; [by rewrite <- Hid|].
    unfold planListRegion, planListHelper.
    apply list_elem_of_fmap_2, elem_of_order_by_id, list_elem_of_fmap_2.
    by apply list_elem_of_filter.
  - intros other Hne. split.
    + rewrite !planListRegion_ids. unfold planDelete; simpl.
      rewrite lookup_delete_ne by done.
      by setoid_rewrite (bound_in_same_rows db (planDelete db planId) other region).
    + rewrite !planGet_lookup. unfold planDelete; simpl. by rewrite lookup_delete_ne.
Qed.

(** ** One plan in one region *)

Lemma filter_ext_elem {A : Type} (P Q : A → Prop)
    `{∀ x, Decision (P x)} `{∀ x, Decision (Q x)} (l : list A) :
  (∀ x, x ∈ l → (P x ↔ Q x)) → filter P l = filter Q l.
Proof.
  induction l as [|a l IH]; intros Hext; [done|].
  assert (filter P l = filter Q l) as Hl by (apply IH; intros x Hx; apply Hext; by right).
  destruct (decide (P a)) as [Ha|Ha].
  - rewrite filter_cons_True by done.
    rewrite (filter_cons_True Q) by (apply Hext; [by left|done]). by rewrite Hl.
  - rewrite filter_cons_False by done.
    rewrite (filter_cons_False Q); [done|]. intros Hq. apply Ha, Hext; [by left|done].
Qed.

Lemma filter_none {A : Type} (P : A → Prop) `{∀ x, Decision (P x)} (l : list A) :
  (∀ x, x ∈ l → ¬ P x) → filter P l = [].
Proof.
  intros Hnone. apply elem_of_nil_inv. intros x [Hp Hx]%list_elem_of_filter.
  by apply (Hnone x).
Qed.

Lemma left_join_key region rps (p : Z * plans_row) x :
  x ∈ left_join_region_plans region rps p → x.1 = p.1.
Proof. intros [[_ ->]|(b & _ & ->)]%elem_of_left_join; done. Qed.

(** Selecting one plan id after the join is joining the row of that plan. *)
Lemma select_joined_plan db region planId :
  filter (λ r, r.1 = planId ∧ visible_in_region r = true)
    (map_to_list (plans db) ≫= left_join_region_plans region (region_plans db))
  = match plans db !! planId with
    | Some row =>
      filter (λ r, visible_in_region r = true)
        (left_join_region_plans region (region_plans db) (planId, row))
    | None => []
    end.
Proof.
  assert (∀ l : list (Z * plans_row),
            filter (λ r, r.1 = planId ∧ visible_in_region r = true)
              (l ≫= left_join_region_plans region (region_plans db))
            = filter (λ r, visible_in_region r = true)
                (filter (λ p : Z * plans_row, p.1 = planId) l
                   ≫= left_join_region_plans region (region_plans db))) as Hsel.
  { induction l as [|p l IH]; [done|].
    rewrite bind_cons, filter_app, IH.
    destruct (decide (p.1 = planId)) as [Hp|Hp].
    - rewrite (filter_cons_True (λ p0 : Z * plans_row, p0.1 = planId)) by done.
      rewrite bind_cons, filter_app. f_equal.
      apply filter_ext_elem. intros x Hx. apply left_join_key in Hx.
      rewrite Hx, Hp. tauto.
    - rewrite (filter_cons_False (λ p0 : Z * plans_row, p0.1 = planId)) by done.
      rewrite filter_none; [done|].
      intros x Hx [Hk _]. apply left_join_key in Hx. congruence. }
  rewrite Hsel.
  rewrite (select_by_key (λ p : Z * plans_row, p.1 = planId) (plans db) planId) by done.
  destruct (plans db !! planId) as [row|]; [|done].
  rewrite decide_True by done. rewrite bind_cons. simpl. by rewrite app_nil_r.
Qed.

Lemma planGetRegion_listed db region planId q :
  planGetRegion db region planId = Some q →
  Plan_Id q = planId ∧ q ∈ planListRegion db region.
Proof.
  unfold planGetRegion. intros Hget.
  destruct (planListHelper _) as [|q0 [|q' qs]] eqn:Hl; [done| |done].
  injection Hget as ->.
  assert (q ∈ planListHelper
            (ifnull_identification <$>
               filter (λ r, r.1 = planId ∧ visible_in_region r = true)
                 (map_to_list (plans db)
                    ≫= left_join_region_plans region (region_plans db))))
    as Hq by (rewrite Hl; by left).
  unfold planListHelper in Hq.
  apply list_elem_of_fmap in Hq as (r & -> & Hr).
  apply list_elem_of_fmap in Hr as (j & -> & Hj).
  apply list_elem_of_filter in Hj as [[Hid Hvis] Hj].
  split; [done|].
  unfold planListRegion, planListHelper.
  apply list_elem_of_fmap_2, elem_of_order_by_id, list_elem_of_fmap_2.
  by apply list_elem_of_filter.
Qed.

(** X4. A plan that [planGetRegion] returns has the id asked for and is one of
    the rows of [planListRegion].  When the plan is bound to the region by at
    most one row, [planGetRegion] finds it exactly when the listing of the
    region has it.  When an enabled plan is bound to the region by two or more
    rows, the query has several rows and [planGetRegion] returns [nil]. *)
Theorem planGetRegion_spec (db : Database) (region : string) (planId : Z) :
  (∀ q, planGetRegion db region planId = Some q →
        Plan_Id q = planId ∧ q ∈ planListRegion db region)
  ∧ (count (region_plans_of planId region (region_plans db)) ≤ 1 →
     (is_Some (planGetRegion db region planId) ↔
      planId ∈ Plan_Id <$> planListRegion db region))
  ∧ (∀ row, plans db !! planId = Some row → p_enabled row = true →
            2 ≤ count (region_plans_of planId region (region_plans db)) →
            planGetRegion db region planId = None).
Proof.
  split; [intros q; apply planGetRegion_listed|]. split.
  - intros Hone. split.
    + intros [q Hq]. apply planGetRegion_listed in Hq as [<- Hq].
      by apply list_elem_of_fmap_2.
    + intros (row & Hrow & He & Hcase)%planListRegion_ids.
      unfold planGetRegion. rewrite select_joined_plan, Hrow.
      unfold left_join_region_plans. simpl.
      destruct (region_plans_of planId region (region_plans db)) as [|b [|b' bs]] eqn:E.
      * destruct Hcase as [Hg|Hb]; [|by apply region_plans_of_nil in E].
        rewrite filter_cons_True by (unfold visible_in_region; simpl; by rewrite He, Hg).
        by eexists.
      * simpl. rewrite filter_cons_True
          by (unfold visible_in_region; simpl; rewrite He; apply orb_true_r).
        by eexists.
      * unfold count in Hone. simpl in Hone. lia.
  - intros row Hrow He Htwo.
    unfold planGetRegion. rewrite select_joined_plan, Hrow.
    unfold left_join_region_plans. simpl.
    destruct (region_plans_of planId region (region_plans db)) as [|b [|b' bs]] eqn:E;
      [unfold count in Htwo; simpl in Htwo; lia..|].
    rewrite !fmap_cons.
    rewrite !filter_cons_True
      by (unfold visible_in_region; simpl; rewrite He; apply orb_true_r).
    done.
Qed.

Lemma planGetRegion_spec_witness :
  is_Some (planGetRegion db_starter "us-east" 1)
  ∧ planGetRegion db_bound_twice "us-east" 1 = None.
Proof.
  destruct (planGetRegion_spec db_starter "us-east" 1) as (_ & Hone & _).
  destruct (planGetRegion_spec db_bound_twice "us-east" 1) as (_ & _ & Htwo).
  split.
  - apply Hone.
    + by vm_compute.
    + assert (Plan_Id <$> planListRegion db_starter "us-east" = [1]) as -> by reflexivity.
      by left.
  - apply (Htwo (mkPlansRow "Starter" 500 512 1 10 100 false true)).
    + reflexivity.
    + reflexivity.
    + by vm_compute.
Defined.

(** ** Disabling and enabling *)

Lemma planDisable_lookup db planId :
  plans (planDisable db planId) !! planId
  = (λ r, mkPlansRow (p_name r) (p_price r) (p_ram r) (p_cpu r) (p_storage r)
            (p_bandwidth r) (p_global r) false) <$> plans db !! planId.
Proof. unfold planDisable; simpl. by rewrite lookup_alter_eq. Qed.

Lemma planEnable_lookup db planId :
  plans (planEnable db planId) !! planId
  = (λ r, mkPlansRow (p_name r) (p_price r) (p_ram r) (p_cpu r) (p_storage r)
            (p_bandwidth r) (p_global r) true) <$> plans db !! planId.
Proof. unfold planEnable; simpl. by rewrite lookup_alter_eq. Qed.

Lemma alter_twice {A : Type} (f g : A → A) (m : gmap Z A) (i : Z) :
  (∀ x, f (g x) = f x) → alter f i (alter g i m) = alter f i m.
Proof.
  intros Hfg. apply map_eq. intros j. destruct (decide (i = j)) as [<-|Hne].
  - rewrite !lookup_alter_eq. destruct (m !! i); simpl; [by rewrite Hfg|done].
  - by rewrite !lookup_alter_ne.
Qed.

(** X5. A disabled plan is hidden from every region, bound or global, while
    [planGet] still returns it, with its other columns unchanged; disabling
    touches no other plan and no binding, and does nothing when the plan does
    not exist. *)
Theorem planDisable_hides (db : Database) (planId : Z) (region : string) :
  (planId ∉ Plan_Id <$> planListRegion (planDisable db planId) region)
  ∧ planGetRegion (planDisable db planId) region planId = None
  ∧ (∀ row, plans db !! planId = Some row →
            planGet (planDisable db planId) planId
            = Some (mkPlan planId (p_name row) (p_price row) (p_ram row) (p_cpu row)
                      (p_storage row) (p_bandwidth row) (p_global row) false "" None None))
  ∧ (∀ other, other ≠ planId →
              plans (planDisable db planId) !! other = plans db !! other)
  ∧ region_plans (planDisable db planId) = region_plans db
  ∧ (plans db !! planId = None → planDisable db planId = db).
Proof.
  assert (planId ∉ Plan_Id <$> planListRegion (planDisable db planId) region) as Hnot.
  { rewrite planListRegion_ids. intros (row & Hrow & He & _).
    rewrite planDisable_lookup in Hrow.
    destruct (plans db !! planId) as [row0|]; [|done].
    simpl in Hrow. injection Hrow as <-. done. }
  split; [done|]. split; [|split; [|split; [|split; [done|]]]].
  - destruct (planGetRegion (planDisable db planId) region planId) as [q|] eqn:Hq; [|done].
    apply planGetRegion_listed in Hq as [<- Hq].
    exfalso. apply Hnot. by apply list_elem_of_fmap_2.
  - intros row Hrow. rewrite planGet_lookup, planDisable_lookup.
    by rewrite Hrow.
  - intros other Hne. unfold planDisable; simpl. by rewrite lookup_alter_ne.
  - intros Hnone. by apply set_plans_id, alter_id'.
Qed.

(** X6. After [planEnable] the plan is listed in a region exactly when it
    exists and is global or bound to that region; enabling undoes a
    disabling, and disabling an enabling, as far as the flag goes: the last of
    the two calls decides. *)
Theorem planEnable_shows (db : Database) (planId : Z) (region : string) :
  (planId ∈ Plan_Id <$> planListRegion (planEnable db planId) region ↔
   ∃ row, plans db !! planId = Some row ∧
          (p_global row = true ∨ bound_in db planId region))
  ∧ planEnable (planDisable db planId) planId = planEnable db planId
  ∧ planDisable (planEnable db planId) planId = planDisable db planId
  ∧ (∀ other, other ≠ planId →
              plans (planEnable db planId) !! other = plans db !! other)
  ∧ (plans db !! planId = None → planEnable db planId = db).
Proof.
  split; [|split; [|split; [|split]]].
  - rewrite planListRegion_ids. split.
    + intros (row & Hrow & _ & Hcase).
      rewrite planEnable_lookup in Hrow.
      destruct (plans db !! planId) as [row0|]; [|done].
      simpl in Hrow. injection Hrow as <-. simpl in Hcase. by exists row0.
    + intros (row & Hrow & Hcase).
      exists (mkPlansRow (p_name row) (p_price row) (p_ram row) (p_cpu row) (p_storage row)
                (p_bandwidth row) (p_global row) true).
      rewrite planEnable_lookup, Hrow. done.
  - unfold planEnable, planDisable, set_plans; simpl. f_equal. by apply alter_twice.
  - unfold planEnable, planDisable, set_plans; simpl. f_equal. by apply alter_twice.
  - intros other Hne. unfold planEnable; simpl. by rewrite lookup_alter_ne.
  - intros Hnone. by apply set_plans_id, alter_id'.
Qed.

(** ** Unbinding and binding *)

Lemma filter_all {A : Type} (P : A → Prop) `{∀ x, Decision (P x)} (l : list A) :
  (∀ x, x ∈ l → P x) → filter P l = l.
Proof.
  induction l as [|a l IH]; intros Hall; [done|].
  rewrite filter_cons_True by (apply Hall; by left).
  f_equal. apply IH. intros x Hx. apply Hall. by right.
Qed.

(** A selection is blind to an update that leaves the selected rows alone and
    moves no row into the selection. *)
Lemma filter_fmap_untouched {A : Type} (P : A → Prop) `{∀ x, Decision (P x)}
    (f : A → A) (l : list A) :
  (∀ x, P x → f x = x) → (∀ x, ¬ P x → ¬ P (f x)) →
  filter P (f <$> l) = filter P l.
Proof.
  intros Hkeep Hout. induction l as [|a l IH]; [done|].
  rewrite fmap_cons. destruct (decide (P a)) as [Ha|Ha].
  - rewrite (Hkeep a Ha), !filter_cons_True by done. by rewrite IH.
  - rewrite !filter_cons_False by auto. done.
Qed.

Lemma planAssociateRegion_plans ri db planId region ident :
  plans (planAssociateRegion ri db planId region ident).1 = plans db.
Proof.
  unfold planAssociateRegion. destruct (ri !! region); [|done]. by case_bool_decide.
Qed.

(** Binding a plan to a region leaves the rows of every other pair. *)
Lemma planAssociateRegion_other_pair ri db planId region ident id r :
  ¬ (id = planId ∧ r = region) →
  region_plans_of id r (region_plans (planAssociateRegion ri db planId region ident).1)
  = region_plans_of id r (region_plans db).
Proof.
  intros Hne. unfold planAssociateRegion.
  destruct (ri !! region); [|done]. case_bool_decide; simpl.
  - unfold region_plans_of, update_region_plans.
    apply filter_fmap_untouched.
    + intros b [Hid Hr]. rewrite bool_decide_eq_false_2; [done|].
      intros [? ?]. apply Hne. split; congruence.
    + intros b Hb. by case_bool_decide.
  - unfold region_plans_of, insert_region_plans.
    rewrite filter_app, filter_cons_False, filter_nil, app_nil_r; [done|].
    simpl. intros [? ?]. by apply Hne.
Qed.

Lemma planDeassociateRegion_rows_of db planId region id r :
  region_plans_of id r (region_plans (planDeassociateRegion db planId region))
  = if decide (id = planId ∧ r = region) then []
    else region_plans_of id r (region_plans db).
Proof.
  unfold planDeassociateRegion, region_plans_of; simpl.
  rewrite list_filter_filter. case_decide as Hsame.
  - destruct Hsame as [-> ->]. apply filter_none. intros b _. tauto.
  - apply filter_ext_elem. intros b _. split; [tauto|].
    intros [Hid Hr]. split; [done|]. intros [? ?]. apply Hsame. split; congruence.
Qed.

(** X7. [planDeassociateRegion] removes every row that binds the plan to the
    region, also when there are several, and no other row; a non-global plan
    is then missing from the listing of that region.  When the plan was not
    bound to the region the store is unchanged. *)
Theorem planDeassociateRegion_unbinds (db : Database) (planId : Z) (region : string) :
  ¬ bound_in (planDeassociateRegion db planId region) planId region
  ∧ (∀ id r, ¬ (id = planId ∧ r = region) →
             region_plans_of id r (region_plans (planDeassociateRegion db planId region))
             = region_plans_of id r (region_plans db))
  ∧ plans (planDeassociateRegion db planId region) = plans db
  ∧ (∀ row, plans db !! planId = Some row → p_global row = false →
            planId ∉ Plan_Id <$> planListRegion (planDeassociateRegion db planId region) region)
  ∧ (¬ bound_in db planId region → planDeassociateRegion db planId region = db).
Proof.
  assert (¬ bound_in (planDeassociateRegion db planId region) planId region) as Hnot.
  { apply region_plans_of_nil.
    by rewrite planDeassociateRegion_rows_of, decide_True. }
  split; [done|]. split; [|split; [done|split]].
  - intros id r Hne. by rewrite planDeassociateRegion_rows_of, decide_False.
  - intros row Hrow Hg.
    rewrite planListRegion_ids. intros (row' & Hrow' & _ & [Hg'|Hb]); [|done].
    simpl in Hrow'. congruence.
  - intros Hfree. apply set_region_plans_id, filter_all.
    intros b Hb [Hid Hr]. apply Hfree. by exists b.
Qed.

(** X8. Binding a plan to a recognised region it was not bound to, and then
    unbinding it, gives back the store as it was. *)
Theorem associate_then_deassociate (ri : gmap string VmInterface) (db : Database)
    (planId : Z) (region ident : string) :
  is_Some (ri !! region) → ¬ bound_in db planId region →
  planDeassociateRegion (planAssociateRegion ri db planId region ident).1 planId region = db.
Proof.
  intros [vmi Hri] Hfree. apply region_plans_of_nil in Hfree as Hnil.
  unfold planAssociateRegion. rewrite Hri, Hnil. simpl.
  unfold planDeassociateRegion, set_region_plans, insert_region_plans. destruct db; simpl in *.
  f_equal. rewrite filter_app, filter_cons_False, filter_nil, app_nil_r by tauto.
  apply filter_all. intros b Hb [Hid Hr]. apply Hfree. by exists b.
Qed.

Lemma associate_then_deassociate_witness :
  planDeassociateRegion
    (planAssociateRegion us_east_only empty_db 1 "us-east" "ext-123").1 1 "us-east"
  = empty_db.
Proof.
  apply (associate_then_deassociate us_east_only empty_db 1 "us-east" "ext-123").
  - by eexists.
  - intros (b & Hb & _). vm_compute in Hb. by apply not_elem_of_nil in Hb.
Defined.

(** X9. After [planAssociateRegion] on a recognised region, an enabled plan is
    listed in that region with the identification just written; when the pair
    had at most one row it is listed there once and with no other
    identification; and the listing of every other region is what it was. *)
Theorem planAssociateRegion_listed (ri : gmap string VmInterface) (db : Database)
    (planId : Z) (region ident : string) (row : plans_row) :
  is_Some (ri !! region) → plans db !! planId = Some row → p_enabled row = true →
  scan_plan (planId, (row, ident))
    ∈ planListRegion (planAssociateRegion ri db planId region ident).1 region
  ∧ (count (region_plans_of planId region (region_plans db)) ≤ 1 →
     ∀ q, q ∈ planListRegion (planAssociateRegion ri db planId region ident).1 region →
          Plan_Id q = planId → q = scan_plan (planId, (row, ident)))
  ∧ (∀ r, r ≠ region →
          planListRegion (planAssociateRegion ri db planId region ident).1 r
          = planListRegion db r).
Proof.
  intros Hri Hrow He.
  pose proof (planAssociateRegion_bindings ri db planId region ident Hri) as Hrows.
  split; [|split].
  - apply elem_of_planListRegion. exists planId, row.
    rewrite planAssociateRegion_plans. do 2 (split; [done|]). left.
    exists (mkRegionPlansRow planId region ident).
    assert (mkRegionPlansRow planId region ident
              ∈ region_plans_of planId region
                  (region_plans (planAssociateRegion ri db planId region ident).1)) as Hin.
    { rewrite Hrows. case_bool_decide; [by left|].
      apply elem_of_app. right. by left. }
    apply elem_of_region_plans_of in Hin as (? & ? & ?). done.
  - intros Hone q Hq Hid.
    assert (region_plans_of planId region
              (region_plans (planAssociateRegion ri db planId region ident).1)
            = [mkRegionPlansRow planId region ident]) as Hsingle.
    { rewrite Hrows. case_bool_decide as Hc; [done|].
      destruct (region_plans_of planId region (region_plans db)) as [|b [|b' bs]];
        unfold count in *; simpl in *; (done || lia). }
    apply elem_of_planListRegion in Hq as (id & row' & Hrow' & _ & Hcase).
    rewrite planAssociateRegion_plans in Hrow'.
    destruct Hcase as [(b & Hb & Hbid & Hbr & ->)|(_ & Hfree & ->)]; simpl in Hid; subst id.
    + assert (row' = row) as -> by congruence.
      assert (b ∈ region_plans_of planId region
                    (region_plans (planAssociateRegion ri db planId region ident).1)) as Hin
        by (by apply elem_of_region_plans_of).
      rewrite Hsingle in Hin. by apply list_elem_of_singleton in Hin as ->.
    + exfalso. apply region_plans_of_nil in Hfree. by rewrite Hsingle in Hfree.
  - intros r Hne. unfold planListRegion.
    rewrite planAssociateRegion_plans. do 4 f_equal.
    apply list_bind_ext; [|done]. intros p. unfold left_join_region_plans.
    rewrite planAssociateRegion_other_pair; [done|]. by intros [_ ?].
Qed.

Lemma planAssociateRegion_listed_witness :
  scan_plan (1, (mkPlansRow "Starter" 500 512 1 10 100 false true, "ext-9"))
    ∈ planListRegion (planAssociateRegion us_east_only db_starter 1 "us-east" "ext-9").1
        "us-east".
Proof.
  apply (planAssociateRegion_listed us_east_only db_starter 1 "us-east" "ext-9"
           (mkPlansRow "Starter" 500 512 1 10 100 false true)).
  - by eexists.
  - reflexivity.
  - reflexivity.
Defined.

(** ** Loading bindings and metadata *)

(** A map filled row by row keeps, for each key, the value of the last row
    with that key. *)
Lemma fold_insert_last {A : Type} (key val : A → string) (l : list A) (k : string) :
  fold_left (λ (m : gmap string string) b, <[key b := val b]> m) l ∅ !! k
  = val <$> last (filter (λ b, key b = k) l).
Proof.
  induction l as [|b l IH] using rev_ind; [done|].
  rewrite fold_left_app, filter_app. simpl.
  destruct (decide (key b = k)) as [Hk|Hk].
  - rewrite filter_cons_True, filter_nil, last_snoc by done.
    rewrite Hk. by rewrite lookup_insert_eq.
  - rewrite filter_cons_False, filter_nil, app_nil_r by done.
    by rewrite lookup_insert_ne.
Qed.

Lemma loaded_region_last db plan region :
  Plan_Global plan = false →
  loaded_region db plan region
  = rp_identification <$> last (region_plans_of (Plan_Id plan) region (region_plans db)).
Proof.
  intros Hg. unfold loaded_region, LoadRegionPlans. rewrite Hg. simpl.
  rewrite (fold_insert_last rp_region rp_identification).
  unfold region_plans_of. rewrite list_filter_filter.
  do 2 f_equal. apply list_filter_iff. intros b. tauto.
Qed.

Lemma loaded_metadata_last db plan k :
  loaded_metadata db plan k
  = pm_v <$> last (plan_metadata_of (Plan_Id plan) k (plan_metadata db)).
Proof.
  unfold loaded_metadata, LoadMetadata. simpl.
  rewrite (fold_insert_last pm_k pm_v).
  unfold plan_metadata_of. rewrite list_filter_filter.
  do 2 f_equal. apply list_filter_iff. intros b. tauto.
Qed.

(** X10. [LoadRegionPlans] leaves a global plan as it is, with no map.  For a
    non-global plan it changes the map only, which then has a region as a key
    exactly when a row binds the plan to that region, and maps the region to
    the identification of the last such row. *)
Theorem LoadRegionPlans_spec (db : Database) (plan : Plan) (region : string) :
  (Plan_Global plan = true → LoadRegionPlans db plan = plan)
  ∧ (Plan_Global plan = false →
     is_Some (Plan_RegionPlans (LoadRegionPlans db plan))
     ∧ (is_Some (loaded_region db plan region) ↔ bound_in db (Plan_Id plan) region)
     ∧ loaded_region db plan region
       = rp_identification <$>
           last (region_plans_of (Plan_Id plan) region (region_plans db))
     ∧ Plan_Id (LoadRegionPlans db plan) = Plan_Id plan
     ∧ Plan_Identification (LoadRegionPlans db plan) = Plan_Identification plan
     ∧ Plan_Metadata (LoadRegionPlans db plan) = Plan_Metadata plan).
Proof.
  split.
  - intros Hg. unfold LoadRegionPlans. by rewrite Hg.
  - intros Hg. split; [|split; [|split; [by apply loaded_region_last|]]].
    + unfold LoadRegionPlans. rewrite Hg. by eexists.
    + rewrite loaded_region_last by done.
      rewrite fmap_is_Some, last_is_Some.
      destruct (bound_in_dec db (Plan_Id plan) region) as [Hb|Hb].
      * split; [done|]. intros _ Hnil. by apply region_plans_of_nil in Hnil.
      * split; [|done]. intros Hne. exfalso. by apply Hne, region_plans_of_nil.
    + unfold LoadRegionPlans. by rewrite Hg.
Qed.

Lemma LoadRegionPlans_spec_witness :
  loaded_region db_starter (provider_plan "Starter" "") "us-east" = None
  ∧ loaded_region db_starter (mkPlan 1 "Starter" 500 512 1 10 100 false true "" None None)
      "us-east" = Some "ext-123".
Proof.
  split.
  - destruct (LoadRegionPlans_spec db_starter (provider_plan "Starter" "") "us-east")
      as (_ & Hload).
    destruct Hload as (_ & _ & -> & _); reflexivity.
  - destruct (LoadRegionPlans_spec db_starter
                (mkPlan 1 "Starter" 500 512 1 10 100 false true "" None None) "us-east")
      as (_ & Hload).
    destruct Hload as (_ & _ & -> & _); reflexivity.
Defined.

(** X11. What [planAssociateRegion] writes is what [LoadRegionPlans] reads:
    after a binding to a recognised region, the loaded map of the (non-global)
    plan sends the region to the identification written, whatever rows the
    pair had; after [planDeassociateRegion] the region is not a key of the
    map. *)
Theorem associate_then_load (ri : gmap string VmInterface) (db : Database)
    (plan : Plan) (region ident : string) :
  is_Some (ri !! region) → Plan_Global plan = false →
  loaded_region (planAssociateRegion ri db (Plan_Id plan) region ident).1 plan region
    = Some ident
  ∧ loaded_region (planDeassociateRegion db (Plan_Id plan) region) plan region = None
  ∧ (∀ r, r ≠ region →
          loaded_region (planAssociateRegion ri db (Plan_Id plan) region ident).1 plan r
          = loaded_region db plan r).
Proof.
  intros Hri Hg. rewrite !loaded_region_last by done. split; [|split].
  - rewrite planAssociateRegion_bindings by done.
    case_bool_decide; [done|]. by rewrite last_snoc.
  - by rewrite planDeassociateRegion_rows_of, decide_True.
  - intros r Hne. rewrite !loaded_region_last by done.
    rewrite planAssociateRegion_other_pair; [done|]. by intros [_ ?].
Qed.

Lemma associate_then_load_witness :
  loaded_region
    (planAssociateRegion us_east_only db_two_bindings 1 "us-east" "ext-9").1
    (mkPlan 1 "Starter" 500 512 1 10 100 false true "" None None) "us-east"
  = Some "ext-9".
Proof.
  apply (associate_then_load us_east_only db_two_bindings
           (mkPlan 1 "Starter" 500 512 1 10 100 false true "" None None) "us-east" "ext-9").
  - by eexists.
  - reflexivity.
Defined.

(** ** Metadata *)

Lemma planSetMetadata_rows db planId k v :
  plan_metadata (planSetMetadata db planId k v)
  = if bool_decide (count (plan_metadata_of planId k (plan_metadata db)) = 1)
    then (λ m, if bool_decide (pm_plan_id m = planId ∧ pm_k m = k)
               then mkPlanMetadataRow (pm_plan_id m) (pm_k m) v else m)
           <$> plan_metadata db
    else (plan_metadata db ++ [mkPlanMetadataRow planId k v])%list.
Proof. unfold planSetMetadata, plan_metadata_of. by case_bool_decide. Qed.

Lemma planSetMetadata_same_key db planId k v :
  plan_metadata_of planId k (plan_metadata (planSetMetadata db planId k v))
  = if bool_decide (count (plan_metadata_of planId k (plan_metadata db)) = 1)
    then [mkPlanMetadataRow planId k v]
    else (plan_metadata_of planId k (plan_metadata db)
            ++ [mkPlanMetadataRow planId k v])%list.
Proof.
  rewrite planSetMetadata_rows. case_bool_decide as Hc.
  - assert (∀ rows,
              plan_metadata_of planId k
                ((λ m, if bool_decide (pm_plan_id m = planId ∧ pm_k m = k)
                       then mkPlanMetadataRow (pm_plan_id m) (pm_k m) v else m) <$> rows)
              = (λ _, mkPlanMetadataRow planId k v) <$> plan_metadata_of planId k rows) as Hupd.
    { unfold plan_metadata_of. induction rows as [|m rows IH]; [done|].
      rewrite fmap_cons. case_bool_decide as Hm.
      - rewrite !filter_cons_True by (simpl; tauto).
        rewrite fmap_cons, IH. by destruct Hm as [-> ->].
      - rewrite !filter_cons_False by done. apply IH. }
    rewrite Hupd.
    destruct (plan_metadata_of planId k (plan_metadata db)) as [|m [|m' ms]];
      unfold count in Hc; simpl in Hc; (done || lia).
  - unfold plan_metadata_of. by rewrite filter_app, filter_cons_True.
Qed.

Lemma planSetMetadata_other_key db planId k v id k' :
  ¬ (id = planId ∧ k' = k) →
  plan_metadata_of id k' (plan_metadata (planSetMetadata db planId k v))
  = plan_metadata_of id k' (plan_metadata db).
Proof.
  intros Hne. rewrite planSetMetadata_rows. case_bool_decide.
  - unfold plan_metadata_of. apply filter_fmap_untouched.
    + intros m [Hid Hk]. rewrite bool_decide_eq_false_2; [done|].
      intros [? ?]. apply Hne. split; congruence.
    + intros m Hm. by case_bool_decide.
  - unfold plan_metadata_of.
    rewrite filter_app, filter_cons_False, filter_nil, app_nil_r; [done|].
    simpl. intros [? ?]. by apply Hne.
Qed.

(** X12. What [planSetMetadata] writes is what [LoadMetadata] reads: the
    loaded map of the plan sends the key to the value written, whatever rows
    the key had, and every other key of this plan and every key of another
    plan reads as before. *)
Theorem planSetMetadata_then_load (db : Database) (planId : Z) (k v : string) (plan : Plan)
    (k' : string) :
  (Plan_Id plan = planId → loaded_metadata (planSetMetadata db planId k v) plan k = Some v)
  ∧ (¬ (Plan_Id plan = planId ∧ k' = k) →
     loaded_metadata (planSetMetadata db planId k v) plan k' = loaded_metadata db plan k')
  ∧ plans (planSetMetadata db planId k v) = plans db
  ∧ region_plans (planSetMetadata db planId k v) = region_plans db.
Proof.
  rewrite !loaded_metadata_last. split; [|split; [|split]].
  - intros ->. rewrite planSetMetadata_same_key.
    case_bool_decide; [done|]. by rewrite last_snoc.
  - intros Hne. by rewrite planSetMetadata_other_key.
  - unfold planSetMetadata. by case_bool_decide.
  - unfold planSetMetadata. by case_bool_decide.
Qed.

Lemma planUnsetMetadata_rows_of db planId k id k' :
  plan_metadata_of id k' (plan_metadata (planUnsetMetadata db planId k))
  = if decide (id = planId ∧ k' = k) then []
    else plan_metadata_of id k' (plan_metadata db).
Proof.
  unfold planUnsetMetadata, plan_metadata_of; simpl.
  rewrite list_filter_filter. case_decide as Hsame.
  - destruct Hsame as [-> ->]. apply filter_none. intros m _. tauto.
  - apply filter_ext_elem. intros m _. split; [tauto|].
    intros [Hid Hk]. split; [done|]. intros [? ?]. apply Hsame. split; congruence.
Qed.

(** X13. After [planUnsetMetadata] the key is missing from the loaded map of
    the plan, also when several rows held it, and every other key reads as
    before; unsetting a key right after setting it on a plan that did not have
    it gives back the store as it was. *)
Theorem planUnsetMetadata_then_load (db : Database) (planId : Z) (k v : string) (plan : Plan)
    (k' : string) :
  (Plan_Id plan = planId → loaded_metadata (planUnsetMetadata db planId k) plan k = None)
  ∧ (¬ (Plan_Id plan = planId ∧ k' = k) →
     loaded_metadata (planUnsetMetadata db planId k) plan k' = loaded_metadata db plan k')
  ∧ (plan_metadata_of planId k (plan_metadata db) = [] →
     planUnsetMetadata (planSetMetadata db planId k v) planId k = db).
Proof.
  rewrite !loaded_metadata_last. split; [|split].
  - intros ->. by rewrite planUnsetMetadata_rows_of, decide_True.
  - intros Hne. by rewrite planUnsetMetadata_rows_of, decide_False.
  - intros Hnil. unfold planSetMetadata.
    fold (plan_metadata_of planId k (plan_metadata db)). rewrite Hnil. simpl.
    unfold planUnsetMetadata, set_plan_metadata. destruct db; simpl in *.
    f_equal. rewrite filter_app, filter_cons_False, filter_nil, app_nil_r by tauto.
    apply filter_all. intros m Hm [Hid Hk].
    assert (m ∈ plan_metadata_of planId k plan_metadata0) as Hin
      by (by apply list_elem_of_filter).
    rewrite Hnil in Hin. by apply not_elem_of_nil in Hin.
Qed.

(** ** What a run of [planAutopopulate] adds *)

Section populate.

Variable ri : gmap string VmInterface.
Variable enabled_default : bool.
Variable region : string.
Variable listed : list Plan.
Variable db0 : Database.
Hypothesis region_known : is_Some (ri !! region).

Local Abbreviation step := (autopopulate_step ri enabled_default region).

Lemma populated_start : populated enabled_default region listed db0 db0 [].
Proof.
  unfold populated. rewrite app_nil_r. simpl.
  split; [done|]. split; [lia|]. split; [constructor|].
  split; [|done]. by intros b ?%not_elem_of_nil.
Qed.

Lemma populated_step db' extra p :
  populated enabled_default region listed db0 db' extra →
  bindings_allocated db' region → p ∈ listed →
  ∃ extra', populated enabled_default region listed db0 (step db' p) extra'
            ∧ bindings_allocated (step db' p) region.
Proof.
  intros (Hrows & Hnext & Hdup & Hextra & Hold) Halloc Hp.
  destruct (region_plans_identified region (Plan_Identification p) (region_plans db'))
    as [|b0 bs] eqn:E.
  - assert (¬ identified_in region db' p) as Hnot
      by (unfold identified_in; rewrite E; intros H; by apply H).
    exists (extra ++ [mkRegionPlansRow (plans_next db') region (Plan_Identification p)])%list.
    split; [|by apply autopopulate_step_spec].
    rewrite autopopulate_step_create by done.
    unfold populated, planCreate, insert_region_plans; simpl.
    split; [by rewrite Hrows, app_assoc|].
    split; [rewrite length_app; simpl; lia|].
    split; [|split].
    + rewrite fmap_app. apply NoDup_app. split; [done|]. split; [|apply NoDup_singleton].
      intros i Hi ->%list_elem_of_singleton.
      apply list_elem_of_fmap in Hi as (b & Hib & Hb).
      destruct (Hextra b Hb) as (Hreg & _).
      assert (b ∈ region_plans_identified region (Plan_Identification p) (region_plans db'))
        as Hin.
      { apply list_elem_of_filter. split; [done|].
        rewrite Hrows. apply elem_of_app. by right. }
      rewrite E in Hin. by apply not_elem_of_nil in Hin.
    + intros b [Hb| ->%list_elem_of_singleton]%elem_of_app.
      * destruct (Hextra b Hb) as (Hreg & Hrange & Hfree & q & Hq & Hiq & Hrow).
        split; [done|]. split; [lia|]. split; [done|].
        exists q. do 2 (split; [done|]). rewrite lookup_insert_ne by lia. done.
      * simpl. split; [done|]. split; [lia|]. split.
        { unfold region_plans_identified in *. rewrite Hrows, filter_app in E.
          by apply app_eq_nil in E as [? _]. }
        exists p. do 2 (split; [done|]). by rewrite lookup_insert_eq.
    + intros id Hid. rewrite lookup_insert_ne by lia. by apply Hold.
  - assert (identified_in region db' p) as Hyes by (unfold identified_in; by rewrite E).
    exists extra. rewrite autopopulate_step_skip by done. done.
Qed.

Lemma populated_loop ps db' extra :
  populated enabled_default region listed db0 db' extra →
  bindings_allocated db' region → (∀ p, p ∈ ps → p ∈ listed) →
  ∃ extra', populated enabled_default region listed db0 (fold_left step ps db') extra'.
Proof.
  revert db' extra. induction ps as [|p ps IH]; intros db' extra Hpop Halloc Hsub; simpl.
  - by exists extra.
  - destruct (populated_step db' extra p Hpop Halloc) as (extra' & Hpop' & Halloc');
      [apply Hsub; by left|].
    apply (IH _ extra'); [done|done|]. intros q Hq. apply Hsub. by right.
Qed.

End populate.

(** X14. What a successful run of [planAutopopulate] adds, on a store where
    no binding of the region refers to a plan id not yet handed out.  The
    bindings that were there stay, in place, followed by the new ones.  Each
    new binding is for the region, carries an identification of the provider's
    list that was not bound in the region before, and points to a plan row
    created in this run with the name, price and sizes of a provider plan with
    that identification, non-global.  No identification gets two new
    bindings, also when the provider lists it twice; one plan id is handed out
    per new binding; and the plan rows that existed are unchanged. *)
Theorem planAutopopulate_creates (ri : gmap string VmInterface) (enabled_default : bool)
    (db : Database) (region : string) (vmi : VmInterface) (ps : list Plan) :
  ri !! region = Some vmi →
  vmi_PlanList vmi = Some (ps, None) →
  bindings_allocated db region →
  ∃ extra,
    region_plans (planAutopopulate ri enabled_default db region).1
      = (region_plans db ++ extra)%list
    ∧ plans_next (planAutopopulate ri enabled_default db region).1
      = plans_next db + Z.of_nat (length extra)
    ∧ NoDup (rp_identification <$> extra)
    ∧ (∀ b, b ∈ extra →
            rp_region b = region
            ∧ plans_next db ≤ rp_plan_id b
            ∧ region_plans_identified region (rp_identification b) (region_plans db) = []
            ∧ ∃ p, p ∈ ps ∧ Plan_Identification p = rp_identification b
                   ∧ plans (planAutopopulate ri enabled_default db region).1 !! rp_plan_id b
                     = Some (plans_row_of_provider enabled_default p))
    ∧ (∀ id, id < plans_next db →
             plans (planAutopopulate ri enabled_default db region).1 !! id = plans db !! id).
Proof.
  intros Hri Hlist Halloc.
  assert (is_Some (ri !! region)) as Hknown by (by eexists).
  unfold planAutopopulate. rewrite Hri, Hlist. simpl.
  destruct (populated_loop ri enabled_default region ps db Hknown ps db []
              (populated_start enabled_default region ps db) Halloc)
    as (extra & Hrows & Hnext & Hdup & Hextra & Hold); [done|].
  exists extra. do 3 (split; [done|]). split; [|done].
  intros b Hb. destruct (Hextra b Hb) as (Hreg & Hrange & Hfree & Hp).
  split; [done|]. split; [lia|]. done.
Qed.

Lemma planAutopopulate_creates_witness :
  region_plans (planAutopopulate us_east_only true empty_db "us-east").1
  = [mkRegionPlansRow 1 "us-east" "A"; mkRegionPlansRow 2 "us-east" "B"]
  ∧ ∃ extra,
      region_plans (planAutopopulate us_east_only true empty_db "us-east").1
        = (region_plans empty_db ++ extra)%list
      ∧ NoDup (rp_identification <$> extra).
Proof.
  split; [reflexivity|].
  destruct (planAutopopulate_creates us_east_only true empty_db "us-east"
              (mkVmInterface
                 (Some ([provider_plan "Small" "A"; provider_plan "Large" "B"], None)))
              [provider_plan "Small" "A"; provider_plan "Large" "B"])
    as (extra & Hrows & _ & Hdup & _).
  - reflexivity.
  - reflexivity.
  - intros b Hb. vm_compute in Hb. by apply not_elem_of_nil in Hb.
  - exists extra. split; [exact Hrows|exact Hdup].
Defined.

(** * Further properties of the ticket system *)

(** ** The three listings *)

(** A listing of tickets: the rows a condition selects, each once, whatever
    the order asked for. *)
Lemma elem_of_ticket_rows (R : relation (Z * tickets_row)) `{∀ a b, Decision (R a b)}
    (P : Z * tickets_row → Prop) `{∀ r, Decision (P r)} db q :
  q ∈ ticketListHelper (merge_sort R (filter P (map_to_list (tickets db)))) ↔
  ∃ id row, tickets db !! id = Some row ∧ P (id, row) ∧ q = scan_ticket (id, row).
Proof.
  unfold ticketListHelper. rewrite list_elem_of_fmap. split.
  - intros ([id row] & -> & Hr). rewrite merge_sort_Permutation in Hr.
    apply list_elem_of_filter in Hr as [Hp Hr]. apply elem_of_map_to_list in Hr.
    by exists id, row.
  - intros (id & row & Hrow & Hp & ->). exists (id, row). split; [done|].
    rewrite merge_sort_Permutation. apply list_elem_of_filter. split; [done|].
    by apply elem_of_map_to_list.
Qed.

Lemma ticket_rows_NoDup (R : relation (Z * tickets_row)) `{∀ a b, Decision (R a b)}
    (P : Z * tickets_row → Prop) `{∀ r, Decision (P r)} db :
  NoDup (Ticket_Id <$>
           ticketListHelper (merge_sort R (filter P (map_to_list (tickets db))))).
Proof.
  unfold ticketListHelper. rewrite <- list_fmap_compose.
  change (Ticket_Id ∘ scan_ticket) with (@fst Z tickets_row).
  rewrite merge_sort_Permutation.
  eapply sublist_NoDup; [apply (NoDup_fst_map_to_list (tickets db))|].
  apply fmap_sublist, sublist_filter.
Qed.

(** X15. [ticketList] returns the tickets of the user, each once and no
    ticket of anybody else, the most recently modified first, and without
    their messages. *)
Theorem ticketList_spec (db : Database) (userId : Z) :
  Sorted (λ a b, Ticket_ModifyTime b ≤ Ticket_ModifyTime a) (ticketList db userId)
  ∧ NoDup (Ticket_Id <$> ticketList db userId)
  ∧ (∀ q, q ∈ ticketList db userId ↔
          ∃ id row, tickets db !! id = Some row ∧ t_user_id row = userId ∧
                    q = scan_ticket (id, row))
  ∧ (∀ q, q ∈ ticketList db userId → Ticket_UserId q = userId ∧ Ticket_Messages q = []).
Proof.
  split; [|split; [|split]].
  - unfold ticketList, ticketListHelper.
    eapply Sorted_fmap; [|apply (Sorted_merge_sort by_recency)].
    intros x y Hxy. exact Hxy.
  - apply (ticket_rows_NoDup by_recency).
  - intros q. apply (elem_of_ticket_rows by_recency).
  - intros q Hq.
    apply (elem_of_ticket_rows by_recency) in Hq as (id & row & _ & Hu & ->). done.
Qed.

(** X16. [ticketListActive] returns those tickets of [ticketList] whose status
    is open or answered, each once, the most recently modified first: a
    closed ticket of the user is in [ticketList] only. *)
Theorem ticketListActive_spec (db : Database) (userId : Z) :
  Sorted (λ a b, Ticket_ModifyTime b ≤ Ticket_ModifyTime a) (ticketListActive db userId)
  ∧ NoDup (Ticket_Id <$> ticketListActive db userId)
  ∧ (∀ q, q ∈ ticketListActive db userId ↔
          q ∈ ticketList db userId
          ∧ (Ticket_Status q = "open" ∨ Ticket_Status q = "answered")).
Proof.
  split; [|split].
  - unfold ticketListActive, ticketListHelper.
    eapply Sorted_fmap; [|apply (Sorted_merge_sort by_recency)].
    intros x y Hxy. exact Hxy.
  - apply (ticket_rows_NoDup by_recency).
  - intros q. unfold ticketListActive, ticketList.
    rewrite !(elem_of_ticket_rows by_recency). split.
    + intros (id & row & Hrow & [Hu Hs] & ->). split; [|done]. by exists id, row.
    + intros [(id & row & Hrow & Hu & ->) Hs]. by exists id, row.
Qed.

(** X17. [ticketListAll] returns every ticket of every user, each once.  Any
    ticket that comes earlier in the list has a status that comes no later in
    the order (anything else, open, answered, closed), and among tickets of
    one status the more recently modified comes first. *)
Theorem ticketListAll_spec (db : Database) :
  StronglySorted
    (λ a b, FIELD_status (Ticket_Status a) < FIELD_status (Ticket_Status b)
            ∨ (FIELD_status (Ticket_Status a) = FIELD_status (Ticket_Status b)
               ∧ Ticket_ModifyTime b ≤ Ticket_ModifyTime a))
    (ticketListAll db)
  ∧ NoDup (Ticket_Id <$> ticketListAll db)
  ∧ (∀ q, q ∈ ticketListAll db ↔
          ∃ id row, tickets db !! id = Some row ∧ q = scan_ticket (id, row))
  ∧ length (ticketListAll db) = size (tickets db).
Proof.
  assert (filter (λ _ : Z * tickets_row, True) (map_to_list (tickets db))
          = map_to_list (tickets db)) as Hall by (by apply filter_all).
  split; [|split; [|split]].
  - unfold ticketListAll, ticketListHelper.
    eapply StronglySorted_fmap; [|apply (StronglySorted_merge_sort by_status_recency)].
    intros x y Hxy. exact Hxy.
  - unfold ticketListAll. rewrite <- Hall. apply (ticket_rows_NoDup by_status_recency).
  - intros q. unfold ticketListAll. rewrite <- Hall.
    rewrite (elem_of_ticket_rows by_status_recency). split.
    + intros (id & row & Hrow & _ & ->). by exists id, row.
    + intros (id & row & Hrow & ->). by exists id, row.
  - unfold ticketListAll, ticketListHelper.
    rewrite length_fmap, merge_sort_Permutation. apply length_map_to_list.
Qed.

(** ** Rejected calls *)

(** X18. [ticketOpen] accepts a call exactly when the subject and the body
    are not empty, the body is at most 16384 long and the caller is staff or
    has a provisioned account; staff may open a ticket for any user id.  A
    rejected call returns id 0 and leaves everything as it was: no row, no
    mail, no log line, no goroutine. *)
Theorem ticketOpen_accepts_iff (AdminEmail : string) (w : World) (userId : Z)
    (name message : string) (staff : bool) :
  ((ticketOpen AdminEmail w userId name message staff).2.2 = None ↔
   name ≠ "" ∧ message ≠ "" ∧ Z.of_nat (String.length message) ≤ 16384
   ∧ (staff = true ∨ provisioned (w_db w) userId))
  ∧ ((ticketOpen AdminEmail w userId name message staff).2.2 ≠ None →
     (ticketOpen AdminEmail w userId name message staff).1 = w
     ∧ (ticketOpen AdminEmail w userId name message staff).2.1 = 0).
Proof.
  split.
  - split; [apply ticketOpen_accepts|].
    intros (Hn & Hm & Hlen & Hprov).
    destruct (ticketOpen_success AdminEmail w userId name message staff Hn Hm Hlen Hprov)
      as (-> & _). done.
  - intros Herr.
    destruct (decide (name = "")) as [Hn|Hn];
      [by rewrite ticketOpen_empty by (by left)|].
    destruct (decide (message = "")) as [Hm|Hm];
      [by rewrite ticketOpen_empty by (by right)|].
    destruct (decide (16384 < Z.of_nat (String.length message))) as [Hlen|Hlen];
      [by rewrite ticketOpen_too_long by done|].
    destruct staff.
    + destruct (ticketOpen_success AdminEmail w userId name message true) as (Hres & _);
        [done|done|lia|by left|]. by rewrite Hres in Herr.
    + destruct (provisioned_dec (w_db w) userId) as [Hp|Hp].
      * destruct (ticketOpen_success AdminEmail w userId name message false) as (Hres & _);
          [done|done|lia|by right|]. by rewrite Hres in Herr.
      * by rewrite ticketOpen_not_provisioned by (done || lia).
Qed.

(** X19. [ticketReply] turns a call down with [invalid_ticket] exactly when
    the message is not empty and the ticket does not exist or, for a
    customer, belongs to somebody else; with [message_empty] exactly when the
    message is empty; a call that is turned down leaves everything as it
    was. *)
Theorem ticketReply_rejects (w : World) (userId ticketId : Z) (message : string)
    (staff : bool) :
  ((ticketReply w userId ticketId message staff).2 = Some (LError "invalid_ticket") ↔
   message ≠ "" ∧
   (tickets (w_db w) !! ticketId = None
    ∨ (staff = false ∧ ∃ row, tickets (w_db w) !! ticketId = Some row
                              ∧ t_user_id row ≠ userId)))
  ∧ ((ticketReply w userId ticketId message staff).2 = Some (LError "message_empty") ↔
     message = "")
  ∧ ((ticketReply w userId ticketId message staff).2 ≠ None →
     (ticketReply w userId ticketId message staff).1 = w).
Proof.
  split; [|split; [|apply ticketReply_rejected]].
  - rewrite ticketReply_error, ticketDetails_lookup.
    case_bool_decide as Hm; [split; [done|by intros [? _]]|].
    destruct (tickets (w_db w) !! ticketId) as [row|] eqn:Hrow.
    + destruct staff; simpl.
      * split; [done|]. intros (_ & [?|[? _]]); done.
      * case_bool_decide as Hu.
        -- split; [done|]. intros (_ & [?|(_ & row' & [= <-] & ?)]); done.
        -- split; [|done]. intros _. split; [done|]. right. split; [done|]. by exists row.
    + split; [|done]. intros _. split; [done|]. by left.
  - rewrite ticketReply_error. case_bool_decide as Hm; [done|].
    destruct (ticketDetails (w_db w) userId ticketId staff); split; done.
Qed.

(** ** Closing *)

Lemma with_db_id (f : Database → Database) w : f (w_db w) = w_db w → with_db f w = w.
Proof. intros Hf. destruct w; unfold with_db; simpl in *. by rewrite Hf. Qed.

Lemma set_tickets_id (f : gmap Z tickets_row → gmap Z tickets_row) db :
  f (tickets db) = tickets db → set_tickets f db = db.
Proof. intros Hf. destruct db; unfold set_tickets; simpl in *. by rewrite Hf. Qed.

(** X20. [ticketClose] changes one thing at most: the status and the
    modification time of the ticket named, when it exists and belongs to
    [userId]; its owner, subject, creation time and thread stay.  For a
    ticket of somebody else, or a ticket that does not exist, it changes
    nothing.  It never sends mail and never removes a pending goroutine. *)
Theorem ticketClose_scope (w : World) (userId ticketId : Z) :
  (∀ row, tickets (w_db w) !! ticketId = Some row → t_user_id row = userId →
          tickets (w_db (ticketClose w userId ticketId)) !! ticketId
          = Some (mkTicketsRow (t_user_id row) (t_name row) "closed" (t_time row)
                    (now (w_db w))))
  ∧ (∀ row, tickets (w_db w) !! ticketId = Some row → t_user_id row ≠ userId →
            ticketClose w userId ticketId = w)
  ∧ (tickets (w_db w) !! ticketId = None → ticketClose w userId ticketId = w)
  ∧ (∀ other, other ≠ ticketId →
              tickets (w_db (ticketClose w userId ticketId)) !! other
              = tickets (w_db w) !! other)
  ∧ ticket_messages (w_db (ticketClose w userId ticketId)) = ticket_messages (w_db w)
  ∧ w_mail (ticketClose w userId ticketId) = w_mail w
  ∧ w_goroutines (ticketClose w userId ticketId) = w_goroutines w.
Proof.
  split; [apply ticketClose_owner|]. split; [|split; [|split; [|done]]].
  - intros row Hrow Hne. apply with_db_id, set_tickets_id, alter_id.
    intros row' Hrow'. assert (row' = row) as -> by congruence.
    by rewrite bool_decide_eq_false_2.
  - intros Hnone. by apply with_db_id, set_tickets_id, alter_id'.
  - intros other Hne. unfold ticketClose, close_ticket_of; simpl.
    by rewrite lookup_alter_ne.
Qed.

Lemma ticketClose_scope_witness :
  tickets (w_db (ticketClose w_opened 7 1)) !! 1
    = Some (mkTicketsRow 7 "Help" "closed" 0 0)
  ∧ ticketClose w_opened 8 1 = w_opened.
Proof.
  destruct (ticketClose_scope w_opened 7 1) as (Howner & _).
  destruct (ticketClose_scope w_opened 8 1) as (_ & Hother & _).
  split.
  - apply (Howner (mkTicketsRow 7 "Help" "open" 0 0)); reflexivity.
  - apply (Hother (mkTicketsRow 7 "Help" "open" 0 0)); [reflexivity|done].
Defined.

(** ** Threads *)

Lemma select_messages_insert db ticketId staff message other :
  (∀ mid, is_Some (ticket_messages db !! mid) → mid < ticket_messages_next db) →
  select_messages other (insert_ticket_message ticketId staff message db)
  = (select_messages other db
       ++ if decide (ticketId = other)
          then [(ticket_messages_next db,
                 mkTicketMessagesRow ticketId staff message (now db))]
          else [])%list.
Proof.
  intros Hbelow.
  assert (ticket_messages db !! ticket_messages_next db = None) as Hfresh.
  { destruct (ticket_messages db !! ticket_messages_next db) eqn:E; [|done].
    assert (ticket_messages_next db < ticket_messages_next db) by (apply Hbelow; by eexists).
    lia. }
  set (n := ticket_messages_next db) in *.
  set (row := mkTicketMessagesRow ticketId staff message (now db)).
  assert (∀ x, x ∈ select_messages other db → x.1 < n) as Hold.
  { intros x [Hx _]%elem_of_select_messages. apply Hbelow. by eexists. }
  assert (∀ x : Z * ticket_messages_row,
            x ∈ (select_messages other db
                   ++ if decide (ticketId = other) then [(n, row)] else [])%list →
            <[n:=row]> (ticket_messages db) !! x.1 = Some x.2) as Hright.
  { intros x [Hx|Hx]%elem_of_app.
    - apply Hold in Hx as Hlt. apply elem_of_select_messages in Hx as [Hx _].
      rewrite lookup_insert_ne by lia. done.
    - case_decide; [|by apply not_elem_of_nil in Hx].
      apply list_elem_of_singleton in Hx as ->. simpl. by rewrite lookup_insert_eq. }
  apply (Sorted_unique_strong by_id).
  - intros x1 x2 Hx1 Hx2 H12 H21. unfold by_id in *.
    apply elem_of_select_messages in Hx1 as [Hx1 _]. simpl in Hx1.
    apply Hright in Hx2.
    assert (x1.1 = x2.1) as Hk by lia. rewrite Hk in Hx1.
    destruct x1, x2; simpl in *. subst n row. congruence.
  - apply order_by_id_sorted.
  - apply StronglySorted_Sorted, StronglySorted_app. split; [|split].
    + intros x1 x2 Hx1 Hx2. case_decide; [|by apply not_elem_of_nil in Hx2].
      apply list_elem_of_singleton in Hx2 as ->. apply Hold in Hx1.
      unfold by_id. simpl. lia.
    + apply Sorted_StronglySorted; [apply _|]. apply order_by_id_sorted.
    + case_decide; repeat constructor.
  - unfold select_messages, order_by_id. simpl. subst n row.
    rewrite !merge_sort_Permutation.
    rewrite (map_to_list_insert _ _ _ Hfresh).
    case_decide as Hsame.
    + rewrite filter_cons_True by done. apply Permutation_cons_append.
    + rewrite filter_cons_False by done. by rewrite app_nil_r.
Qed.

Lemma select_messages_same db db' ticketId :
  ticket_messages db' = ticket_messages db →
  select_messages ticketId db' = select_messages ticketId db.
Proof. unfold select_messages. by intros ->. Qed.

Lemma update_ticket_status_lookup status ticketId db other :
  tickets (update_ticket_status status ticketId db) !! other
  = if decide (ticketId = other)
    then (λ r, mkTicketsRow (t_user_id r) (t_name r) status (t_time r) (now db))
           <$> tickets db !! other
    else tickets db !! other.
Proof.
  unfold update_ticket_status. simpl. case_decide as Hk.
  - subst other. by rewrite lookup_alter_eq.
  - by rewrite lookup_alter_ne.
Qed.

Lemma ticket_of_row_update_status status ticketId db other row :
  ticket_of_row (update_ticket_status status ticketId db) other row
  = ticket_of_row db other row.
Proof. done. Qed.

Lemma ticket_of_row_insert_message db ticketId staff message other row :
  (∀ mid, is_Some (ticket_messages db !! mid) → mid < ticket_messages_next db) →
  ticket_of_row (insert_ticket_message ticketId staff message db) other row
  = append_messages (ticket_of_row db other row)
      (if decide (ticketId = other)
       then [mkTicketMessage (ticket_messages_next db) staff message (now db)]
       else []).
Proof.
  intros Hbelow. unfold ticket_of_row.
  rewrite select_messages_insert by done.
  rewrite fmap_app. unfold append_messages. simpl. f_equal.
  f_equal. by case_decide.
Qed.

(** The store after a reply that passed the checks. *)
Lemma ticketReply_db w userId ticketId message staff t :
  message ≠ "" → ticketDetails (w_db w) userId ticketId staff = Some t →
  w_db (ticketReply w userId ticketId message staff).1
  = update_ticket_status (if staff then "answered" else "open") ticketId
      (insert_ticket_message ticketId staff message (w_db w))
  ∧ w_mail (ticketReply w userId ticketId message staff).1
    = (w_mail w ++ [mkMail (if staff then userId else -1) "ticketReply"
                      (mkTicketUpdateEmail ticketId (Ticket_Name t) message) false])%list.
Proof.
  intros Hm Ht. unfold ticketReply.
  rewrite bool_decide_eq_false_2 by done. rewrite Ht. by destruct staff.
Qed.

(** X21. A reply that passes the checks adds its message at the end of the
    thread and nothing else to it: read again by the same caller, the ticket
    has the same id, owner, subject and creation time, the status of the
    author's role, the modification time of the reply, and the old thread
    followed by the new message.  Every other ticket reads as before, and one
    mail is sent: to the owner's user id for a staff reply, to the staff
    address (-1) for a customer's. *)
Theorem ticketReply_appends (w : World) (userId ticketId : Z) (message : string)
    (staff : bool) (t : Ticket) :
  tickets_wf (w_db w) → message ≠ "" →
  ticketDetails (w_db w) userId ticketId staff = Some t →
  ticketDetails (w_db (ticketReply w userId ticketId message staff).1) userId ticketId staff
  = Some (mkTicket (Ticket_Id t) (Ticket_UserId t) (Ticket_Name t)
            (if staff then "answered" else "open") (Ticket_Time t) (now (w_db w))
            (Ticket_Messages t
               ++ [mkTicketMessage (ticket_messages_next (w_db w)) staff message
                     (now (w_db w))])%list)
  ∧ (∀ reader other as_staff, other ≠ ticketId →
       ticketDetails (w_db (ticketReply w userId ticketId message staff).1)
         reader other as_staff
       = ticketDetails (w_db w) reader other as_staff)
  ∧ w_mail (ticketReply w userId ticketId message staff).1
    = (w_mail w ++ [mkMail (if staff then userId else -1) "ticketReply"
                      (mkTicketUpdateEmail ticketId (Ticket_Name t) message) false])%list.
Proof.
  intros [_ Hmsgs] Hm Ht.
  destruct (ticketReply_db w userId ticketId message staff t Hm Ht) as [Hdb Hmail].
  assert (∀ mid, is_Some (ticket_messages (w_db w) !! mid) →
                 mid < ticket_messages_next (w_db w)) as Hbelow.
  { intros mid [mrow Hrow]. by apply (Hmsgs mid mrow). }
  split; [|split; [|done]].
  - rewrite Hdb. rewrite ticketDetails_lookup in Ht |- *.
    rewrite update_ticket_status_lookup, decide_True by done.
    change (tickets (insert_ticket_message ticketId staff message (w_db w)))
      with (tickets (w_db w)).
    change (now (insert_ticket_message ticketId staff message (w_db w)))
      with (now (w_db w)).
    destruct (tickets (w_db w) !! ticketId) as [row|]; [|done].
    change ((λ r, mkTicketsRow (t_user_id r) (t_name r) (if staff then "answered" else "open")
                    (t_time r) (now (w_db w))) <$> Some row)
      with (Some (mkTicketsRow (t_user_id row) (t_name row)
                    (if staff then "answered" else "open") (t_time row) (now (w_db w)))).
    cbn [t_user_id].
    destruct (staff || bool_decide (t_user_id row = userId)); [|done].
    injection Ht as <-. f_equal.
    rewrite ticket_of_row_update_status, ticket_of_row_insert_message by done.
    rewrite decide_True by done. done.
  - intros reader other as_staff Hne. rewrite Hdb, !ticketDetails_lookup.
    rewrite update_ticket_status_lookup, decide_False by done.
    change (tickets (insert_ticket_message ticketId staff message (w_db w)))
      with (tickets (w_db w)).
    destruct (tickets (w_db w) !! other) as [row|]; [|done].
    destruct (as_staff || bool_decide (t_user_id row = reader)); [|done].
    f_equal.
    rewrite ticket_of_row_update_status, ticket_of_row_insert_message by done.
    rewrite decide_False by done.
    unfold append_messages, ticket_of_row. simpl. by rewrite app_nil_r.
Qed.


(** ** Consistency of the ticket tables *)

Lemma tickets_wf_empty db :
  tickets db = ∅ → ticket_messages db = ∅ → tickets_wf db.
Proof.
  intros Ht Hm. split.
  - intros id [row Hrow]. by rewrite Ht, lookup_empty in Hrow.
  - intros mid mrow Hrow. by rewrite Hm, lookup_empty in Hrow.
Qed.

Lemma insert_ticket_wf userId name db :
  tickets_wf db → tickets_wf (insert_ticket userId name db).1.
Proof.
  intros [Ht Hm]. unfold insert_ticket. split; simpl.
  - intros id [row Hrow]. destruct (decide (tickets_next db = id)) as [<-|Hne]; [lia|].
    rewrite lookup_insert_ne in Hrow by done.
    assert (id < tickets_next db) by (apply Ht; by eexists). lia.
  - intros mid mrow Hrow. destruct (Hm mid mrow Hrow) as [Hlt [row Hsome]].
    split; [done|].
    destruct (decide (tickets_next db = m_ticket_id mrow)) as [<-|Hne].
    + rewrite lookup_insert_eq. by eexists.
    + rewrite lookup_insert_ne by done. by eexists.
Qed.

Lemma insert_ticket_message_wf ticketId staff message db :
  tickets_wf db → is_Some (tickets db !! ticketId) →
  tickets_wf (insert_ticket_message ticketId staff message db).
Proof.
  intros [Ht Hm] Hexists. unfold insert_ticket_message. split; simpl; [done|].
  intros mid mrow Hrow.
  destruct (decide (ticket_messages_next db = mid)) as [<-|Hne].
  - rewrite lookup_insert_eq in Hrow. injection Hrow as <-. simpl. split; [lia|done].
  - rewrite lookup_insert_ne in Hrow by done.
    destruct (Hm mid mrow Hrow). split; [lia|done].
Qed.

(** An update of rows of [tickets] that are there keeps the tables
    consistent. *)
Lemma alter_ticket_wf (f : tickets_row → tickets_row) ticketId db :
  tickets_wf db → tickets_wf (set_tickets (alter f ticketId) db).
Proof.
  assert (∀ id, is_Some (alter f ticketId (tickets db) !! id) ↔ is_Some (tickets db !! id))
    as Hsame.
  { intros id. destruct (decide (ticketId = id)) as [<-|Hne].
    - rewrite lookup_alter_eq. by rewrite fmap_is_Some.
    - by rewrite lookup_alter_ne. }
  intros [Ht Hm]. split; simpl.
  - intros id Hid. by apply Ht, Hsame.
  - intros mid mrow Hrow. destruct (Hm mid mrow Hrow). split; [done|]. by apply Hsame.
Qed.

Lemma ticketOpen_rejected AdminEmail w userId name message staff :
  (ticketOpen AdminEmail w userId name message staff).2.2 ≠ None →
  (ticketOpen AdminEmail w userId name message staff).1 = w.
Proof.
  intros Herr.
  destruct (decide (name = "")) as [Hn|Hn];
    [by rewrite ticketOpen_empty by (by left)|].
  destruct (decide (message = "")) as [Hm|Hm];
    [by rewrite ticketOpen_empty by (by right)|].
  destruct (decide (16384 < Z.of_nat (String.length message))) as [Hlen|Hlen];
    [by rewrite ticketOpen_too_long by done|].
  destruct staff.
  - destruct (ticketOpen_success AdminEmail w userId name message true) as (Hres & _);
      [done|done|lia|by left|]. by rewrite Hres in Herr.
  - destruct (provisioned_dec (w_db w) userId) as [Hp|Hp].
    + destruct (ticketOpen_success AdminEmail w userId name message false) as (Hres & _);
        [done|done|lia|by right|]. by rewrite Hres in Herr.
    + by rewrite ticketOpen_not_provisioned by (done || lia).
Qed.

(** The store after an accepted [ticketOpen]. *)
Lemma ticketOpen_db AdminEmail w userId name message staff :
  (ticketOpen AdminEmail w userId name message staff).2.2 = None →
  w_db (ticketOpen AdminEmail w userId name message staff).1
  = insert_ticket_message (tickets_next (w_db w)) staff message
      (insert_ticket userId name (w_db w)).1
  ∧ w_mail (ticketOpen AdminEmail w userId name message staff).1
    = (w_mail w ++ [mkMail (if staff then userId else -1) "ticketOpen"
                      (mkTicketUpdateEmail (tickets_next (w_db w)) name message) false])%list.
Proof.
  intros (Hn & Hm & Hlen & Hprov)%ticketOpen_accepts. unfold ticketOpen.
  rewrite !bool_decide_eq_false_2 by (done || lia). simpl.
  assert (negb staff &&
          match userDetails (w_db w) userId with
          | Some u => bool_decide (u_status u = "new")
          | None => true
          end = false) as ->.
  { destruct Hprov as [->|(u & Hu & Hne)]; [done|].
    unfold userDetails. rewrite Hu, bool_decide_eq_false_2 by done.
    apply andb_false_r. }
  by destruct staff.
Qed.

Lemma ticketOpen_wf AdminEmail w userId name message staff :
  tickets_wf (w_db w) →
  tickets_wf (w_db (ticketOpen AdminEmail w userId name message staff).1).
Proof.
  intros Hwf.
  destruct ((ticketOpen AdminEmail w userId name message staff).2.2) as [e|] eqn:Hres.
  - rewrite ticketOpen_rejected; [done|]. by rewrite Hres.
  - destruct (ticketOpen_db AdminEmail w userId name message staff Hres) as [-> _].
    apply insert_ticket_message_wf; [by apply insert_ticket_wf|].
    unfold insert_ticket. simpl. rewrite lookup_insert_eq. by eexists.
Qed.

Lemma ticketReply_wf w userId ticketId message staff :
  tickets_wf (w_db w) →
  tickets_wf (w_db (ticketReply w userId ticketId message staff).1).
Proof.
  intros Hwf.
  destruct (decide (message = "")) as [Hm|Hm].
  { rewrite ticketReply_rejected; [done|]. rewrite ticketReply_error.
    by rewrite bool_decide_eq_true_2. }
  destruct (ticketDetails (w_db w) userId ticketId staff) as [t|] eqn:Ht.
  - destruct (ticketReply_db w userId ticketId message staff t Hm Ht) as [-> _].
    apply alter_ticket_wf, insert_ticket_message_wf; [done|].
    rewrite ticketDetails_lookup in Ht.
    destruct (tickets (w_db w) !! ticketId); [by eexists|done].
  - rewrite ticketReply_rejected; [done|]. rewrite ticketReply_error, Ht.
    by rewrite bool_decide_eq_false_2.
Qed.

(** X22. The ticket tables stay consistent under every operation of the
    ticket system: [ticketOpen], [ticketReply] and [ticketClose], accepted or
    not, and the automatic reply when it fires.  Ids stay below the counters
    that hand them out, and, since no operation deletes a ticket and
    [ticketReply] writes only after it has found the ticket, every message
    belongs to a ticket that exists. *)
Theorem tickets_wf_kept (AdminEmail : string) (w : World) (userId ticketId : Z)
    (name message : string) (staff : bool) (g : Goroutine) :
  tickets_wf (w_db w) →
  tickets_wf (w_db (ticketOpen AdminEmail w userId name message staff).1)
  ∧ tickets_wf (w_db (ticketReply w userId ticketId message staff).1)
  ∧ tickets_wf (w_db (ticketClose w userId ticketId))
  ∧ tickets_wf (w_db (fire g w))
  ∧ (∀ w', fires w w' → tickets_wf (w_db w')).
Proof.
  intros Hwf.
  split; [by apply ticketOpen_wf|]. split; [by apply ticketReply_wf|].
  split; [by apply alter_ticket_wf|]. split; [by apply ticketReply_wf|].
  intros w' Hfires. destruct Hfires as [w0 g0 before after _].
  unfold fire. by apply ticketReply_wf.
Qed.

Lemma w_start_wf : tickets_wf (w_db w_start).
Proof. by apply tickets_wf_empty. Qed.

Lemma w_opened_wf : tickets_wf (w_db w_opened).
Proof. apply ticketOpen_wf, w_start_wf. Qed.

Lemma tickets_wf_kept_witness :
  tickets_wf (w_db (ticketReply w_opened 7 1 "more" false).1)
  ∧ tickets_wf (w_db w_answered).
Proof.
  destruct (tickets_wf_kept "admin@example.org" w_opened 7 1 "Help" "more" false
              (mkGoroutine 7 1) w_opened_wf) as (_ & Hreply & _ & _ & Hfires).
  split; [exact Hreply|].
  apply Hfires. exact (fires_pending w_opened (mkGoroutine 7 1) [] [] eq_refl).
Defined.

Lemma ticketReply_appends_witness :
  Ticket_Messages <$> ticketDetails (w_db (ticketReply w_opened 7 1 "more" false).1) 7 1 false
  = Some [mkTicketMessage 1 false "hi" 0; mkTicketMessage 2 false "more" 0].
Proof.
  destruct (ticketReply_appends w_opened 7 1 "more" false
              (ticket_of_row (w_db w_opened) 1 (mkTicketsRow 7 "Help" "open" 0 0)))
    as (-> & _).
  - exact w_opened_wf.
  - done.
  - reflexivity.
  - reflexivity.
Defined.

Lemma select_messages_none db ticketId :
  (∀ mid mrow, ticket_messages db !! mid = Some mrow → m_ticket_id mrow ≠ ticketId) →
  select_messages ticketId db = [].
Proof.
  intros Hnone. apply elem_of_nil_inv. intros [mid mrow] [Hrow Htid]%elem_of_select_messages.
  by apply (Hnone mid mrow).
Qed.

(** X23. An accepted [ticketOpen] creates one ticket, under the id it returns:
    read by its owner or by staff, it has the subject given, status open and a
    thread of exactly one message, the body, marked with the author's role.
    Every other ticket reads as before, and one mail is sent: to the user's id
    when staff opened the ticket, to the staff address (-1) when the customer
    did. *)
Theorem ticketOpen_thread (AdminEmail : string) (w : World) (userId : Z)
    (name message : string) (staff : bool) :
  tickets_wf (w_db w) →
  (ticketOpen AdminEmail w userId name message staff).2.2 = None →
  (∀ as_staff,
     ticketDetails (w_db (ticketOpen AdminEmail w userId name message staff).1)
       userId (tickets_next (w_db w)) as_staff
     = Some (mkTicket (tickets_next (w_db w)) userId name "open" (now (w_db w))
               (now (w_db w))
               [mkTicketMessage (ticket_messages_next (w_db w)) staff message
                  (now (w_db w))]))
  ∧ (∀ reader other as_staff, other ≠ tickets_next (w_db w) →
       ticketDetails (w_db (ticketOpen AdminEmail w userId name message staff).1)
         reader other as_staff
       = ticketDetails (w_db w) reader other as_staff)
  ∧ w_mail (ticketOpen AdminEmail w userId name message staff).1
    = (w_mail w ++ [mkMail (if staff then userId else -1) "ticketOpen"
                      (mkTicketUpdateEmail (tickets_next (w_db w)) name message) false])%list.
Proof.
  intros [Ht Hm] Hok.
  destruct (ticketOpen_db AdminEmail w userId name message staff Hok) as [Hdb Hmail].
  assert (∀ mid, is_Some (ticket_messages (insert_ticket userId name (w_db w)).1 !! mid) →
                 mid < ticket_messages_next (insert_ticket userId name (w_db w)).1) as Hbelow.
  { intros mid [mrow Hrow]. by apply (Hm mid mrow). }
  split; [|split; [|done]].
  - intros as_staff. rewrite Hdb, ticketDetails_lookup.
    change (tickets (insert_ticket_message (tickets_next (w_db w)) staff message
                       (insert_ticket userId name (w_db w)).1))
      with (<[tickets_next (w_db w) :=
                mkTicketsRow userId name "open" (now (w_db w)) (now (w_db w))]>
              (tickets (w_db w))).
    rewrite lookup_insert_eq. cbn [t_user_id].
    rewrite bool_decide_eq_true_2, orb_true_r by done. f_equal.
    rewrite ticket_of_row_insert_message by done.
    rewrite decide_True by done.
    unfold ticket_of_row.
    rewrite (select_messages_same (w_db w)) by done.
    rewrite select_messages_none; [done|].
    intros mid mrow Hrow Htid. destruct (Hm mid mrow Hrow) as [_ Hsome].
    apply Ht in Hsome. lia.
  - intros reader other as_staff Hne. rewrite Hdb, !ticketDetails_lookup.
    change (tickets (insert_ticket_message (tickets_next (w_db w)) staff message
                       (insert_ticket userId name (w_db w)).1))
      with (<[tickets_next (w_db w) :=
                mkTicketsRow userId name "open" (now (w_db w)) (now (w_db w))]>
              (tickets (w_db w))).
    rewrite lookup_insert_ne by done.
    destruct (tickets (w_db w) !! other) as [row|]; [|done].
    destruct (as_staff || bool_decide (t_user_id row = reader)); [|done].
    f_equal. rewrite ticket_of_row_insert_message by done.
    rewrite decide_False by done.
    unfold append_messages, ticket_of_row. simpl. rewrite app_nil_r.
    by rewrite (select_messages_same (w_db w)).
Qed.

Lemma ticketOpen_thread_witness :
  ticketDetails (w_db (ticketOpen "admin@example.org" w_start 7 "Help" "hi" false).1) 7 1 false
  = Some (mkTicket 1 7 "Help" "open" 0 0 [mkTicketMessage 1 false "hi" 0]).
Proof.
  destruct (ticketOpen_thread "admin@example.org" w_start 7 "Help" "hi" false)
    as (Hread & _).
  - exact w_start_wf.
  - reflexivity.
  - apply (Hread false).
Defined.

(** ** Closing and the automatic reply *)

Lemma ticketListActive_ids db userId ticketId :
  ticketId ∈ Ticket_Id <$> ticketListActive db userId ↔
  ∃ row, tickets db !! ticketId = Some row ∧ t_user_id row = userId
         ∧ (t_status row = "open" ∨ t_status row = "answered").
Proof.
  rewrite list_elem_of_fmap. unfold ticketListActive. split.
  - intros (q & -> & Hq).
    apply (elem_of_ticket_rows by_recency) in Hq as (id & row & Hrow & [Hu Hs] & ->).
    by exists row.
  - intros (row & Hrow & Hu & Hs). exists (scan_ticket (ticketId, row)). split; [done|].
    apply (elem_of_ticket_rows by_recency). by exists ticketId, row.
Qed.

Lemma ticketList_ids db userId ticketId :
  ticketId ∈ Ticket_Id <$> ticketList db userId ↔
  ∃ row, tickets db !! ticketId = Some row ∧ t_user_id row = userId.
Proof.
  rewrite list_elem_of_fmap. unfold ticketList. split.
  - intros (q & -> & Hq).
    apply (elem_of_ticket_rows by_recency) in Hq as (id & row & Hrow & Hu & ->).
    by exists row.
  - intros (row & Hrow & Hu). exists (scan_ticket (ticketId, row)). split; [done|].
    apply (elem_of_ticket_rows by_recency). by exists ticketId, row.
Qed.

(** X24. Once its owner has closed it, a ticket is no longer among the
    owner's active tickets but still among all of the owner's tickets, and
    the other tickets are active or not as before. *)
Theorem ticketClose_leaves_active (w : World) (userId ticketId : Z) (row : tickets_row) :
  tickets (w_db w) !! ticketId = Some row → t_user_id row = userId →
  (ticketId ∉ Ticket_Id <$> ticketListActive (w_db (ticketClose w userId ticketId)) userId)
  ∧ ticketId ∈ Ticket_Id <$> ticketList (w_db (ticketClose w userId ticketId)) userId
  ∧ (∀ other reader, other ≠ ticketId →
       (other ∈ Ticket_Id <$> ticketListActive (w_db (ticketClose w userId ticketId)) reader ↔
        other ∈ Ticket_Id <$> ticketListActive (w_db w) reader)).
Proof.
  intros Hrow Hu.
  pose proof (ticketClose_owner w userId ticketId row Hrow Hu) as Hclosed.
  split; [|split].
  - rewrite ticketListActive_ids. intros (row' & Hrow' & _ & Hs).
    rewrite Hclosed in Hrow'. injection Hrow' as <-. simpl in Hs. by destruct Hs.
  - apply ticketList_ids. eexists. split; [exact Hclosed|done].
  - intros other reader Hne. rewrite !ticketListActive_ids.
    unfold ticketClose, close_ticket_of. simpl. by rewrite lookup_alter_ne.
Qed.

Lemma ticketClose_leaves_active_witness :
  (1 ∉ Ticket_Id <$> ticketListActive (w_db (ticketClose w_opened 7 1)) 7)
  ∧ 1 ∈ Ticket_Id <$> ticketList (w_db (ticketClose w_opened 7 1)) 7.
Proof.
  destruct (ticketClose_leaves_active w_opened 7 1 (mkTicketsRow 7 "Help" "open" 0 0))
    as (Hgone & Hkept & _).
  - reflexivity.
  - reflexivity.
  - split; [exact Hgone|exact Hkept].
Defined.



(** * Start-up wiring *)

Section wiring.

Variable vm_constructs : VmValue → bool.
Variable payment_constructs : PaymentValue → bool.

Local Abbreviation registration_of := (registration_of vm_constructs payment_constructs).

Lemma register_vms_spec vms calls :
  ∃ built rest regs,
    vms = (built ++ rest)%list
    ∧ (register_vms vm_constructs vms calls).1 = (calls ++ regs)%list
    ∧ Forall2 (λ vm r, registration_of (inl vm) = inl r) built regs
    ∧ match rest with
      | [] => (register_vms vm_constructs vms calls).2 = None
      | bad :: _ => ∃ stop, registration_of (inl bad) = inr stop
                            ∧ (register_vms vm_constructs vms calls).2 = Some stop
      end.
Proof.
  revert calls. induction vms as [|vm vms IH]; intros calls; simpl.
  - exists [], [], []. rewrite (app_nil_r calls). repeat split; constructor.
  - destruct (make_vm vm_constructs vm) as [vmi|stop] eqn:Hvm.
    + destruct (IH (calls ++ [RegisterVmInterface (VmConfig_Name vm) vmi])%list)
        as (built & rest & regs & -> & Hcalls & Hall & Hrest).
      exists (vm :: built), rest, (RegisterVmInterface (VmConfig_Name vm) vmi :: regs).
      split; [done|]. split; [by rewrite Hcalls, <- app_assoc|].
      split; [|done]. constructor; [|done]. simpl. by rewrite Hvm.
    + exists [], (vm :: vms), []. rewrite (app_nil_r calls). simpl.
      split; [done|]. split; [done|]. split; [constructor|].
      exists stop. by rewrite Hvm.
Qed.

Lemma register_payments_spec payments calls :
  ∃ built rest regs,
    payments = (built ++ rest)%list
    ∧ (register_payments payment_constructs payments calls).1 = (calls ++ regs)%list
    ∧ Forall2 (λ payment r, registration_of (inr payment) = inl r) built regs
    ∧ match rest with
      | [] => (register_payments payment_constructs payments calls).2 = None
      | bad :: _ => ∃ stop, registration_of (inr bad) = inr stop
                            ∧ (register_payments payment_constructs payments calls).2
                              = Some stop
      end.
Proof.
  revert calls. induction payments as [|payment payments IH]; intros calls; simpl.
  - exists [], [], []. rewrite (app_nil_r calls). repeat split; constructor.
  - destruct (make_payment payment_constructs payment) as [pi|stop] eqn:Hpay.
    + destruct (IH (calls ++ [RegisterPaymentInterface (PaymentConfig_Name payment) pi])%list)
        as (built & rest & regs & -> & Hcalls & Hall & Hrest).
      exists (payment :: built), rest,
        (RegisterPaymentInterface (PaymentConfig_Name payment) pi :: regs).
      split; [done|]. split; [by rewrite Hcalls, <- app_assoc|].
      split; [|done]. constructor; [|done]. simpl. by rewrite Hpay.
    + exists [], (payment :: payments), []. rewrite (app_nil_r calls). simpl.
      split; [done|]. split; [done|]. split; [constructor|].
      exists stop. by rewrite Hpay.
Qed.

(** An entry that stops the wiring never stops it with [Runs]; when it stops
    it in [log.Fatalf], the argument is its type tag, which is none of the
    tags of its kind. *)
Lemma registration_stop entry stop :
  registration_of entry = inr stop →
  stop ≠ Runs
  ∧ ∀ format tag, stop = Fatalf format tag →
      match entry with
      | inl vm => tag = VmConfig_Type vm
                  ∧ tag ∉ ["openstack"; "solusvm"; "lndynamic"; "fake"]
      | inr payment => tag = PaymentConfig_Type payment
                       ∧ tag ∉ ["paypal"; "coinbase"; "fake"]
      end.
Proof.
  destruct entry as [vm|payment]; simpl.
  - unfold make_vm.
    case_bool_decide as H1.
    { destruct (vm_constructs _); intros [= <-]. split; [done|]. by intros ?? [=]. }
    case_bool_decide as H2; [by intros [=]|].
    case_bool_decide as H3.
    { destruct (vm_constructs _); intros [= <-]. split; [done|]. by intros ?? [=]. }
    case_bool_decide as H4; [by intros [=]|].
    intros [= <-]. split; [done|]. intros format tag [= <- <-]. split; [done|].
    rewrite !elem_of_cons. intros [?|[?|[?|[?|?%not_elem_of_nil]]]]; done.
  - unfold make_payment.
    case_bool_decide as H1.
    { destruct (payment_constructs _); intros [= <-]. split; [done|]. by intros ?? [=]. }
    case_bool_decide as H2.
    { destruct (payment_constructs _); intros [= <-]. split; [done|]. by intros ?? [=]. }
    case_bool_decide as H3; [by intros [=]|].
    intros [= <-]. split; [done|]. intros format tag [= <- <-]. split; [done|].
    rewrite !elem_of_cons. intros [?|[?|[?|?%not_elem_of_nil]]]; done.
Qed.

(** X26. The wiring of [main] is all or nothing up to the first entry it
    cannot build.  Taking the VM entries and then the payment entries in the
    order of the configuration, [main] registers every entry before the first
    one that has an unrecognised type tag or whose constructor does not
    return, each once, under its configured name and in that order, and
    nothing after it; it goes on to run exactly when there is no such entry.
    When it stops in [log.Fatalf], the tag reported is the type of that entry
    and is none of the tags recognised for its kind. *)
Theorem wire_prefix (interfaceConfig : InterfaceConfig) :
  ∃ built rest,
    entries interfaceConfig = (built ++ rest)%list
    ∧ Forall2 (λ entry r, registration_of entry = inl r) built
        (wire vm_constructs payment_constructs interfaceConfig).1
    ∧ ((wire vm_constructs payment_constructs interfaceConfig).2 = Runs ↔ rest = [])
    ∧ (∀ bad rest', rest = bad :: rest' →
         registration_of bad
         = inr (wire vm_constructs payment_constructs interfaceConfig).2
         ∧ ∀ format tag,
             (wire vm_constructs payment_constructs interfaceConfig).2 = Fatalf format tag →
             match bad with
             | inl vm => tag = VmConfig_Type vm
                         ∧ tag ∉ ["openstack"; "solusvm"; "lndynamic"; "fake"]
             | inr payment => tag = PaymentConfig_Type payment
                              ∧ tag ∉ ["paypal"; "coinbase"; "fake"]
             end).
Proof.
  unfold wire, entries.
  destruct (register_vms_spec (InterfaceConfig_Vm interfaceConfig) [])
    as (vbuilt & vrest & vregs & Hvms & Hvcalls & Hvall & Hvrest).
  rewrite app_nil_l in Hvcalls.
  destruct (register_vms vm_constructs (InterfaceConfig_Vm interfaceConfig) [])
    as [calls ostop]. simpl in Hvcalls, Hvrest. subst calls.
  destruct vrest as [|bad vrest].
  - subst ostop. rewrite app_nil_r in Hvms.
    destruct (register_payments_spec (InterfaceConfig_Payment interfaceConfig) vregs)
      as (pbuilt & prest & pregs & Hpays & Hpcalls & Hpall & Hprest).
    destruct (register_payments payment_constructs
                (InterfaceConfig_Payment interfaceConfig) vregs) as [calls ostop].
    simpl in Hpcalls, Hprest. subst calls.
    exists ((inl <$> vbuilt) ++ (inr <$> pbuilt))%list, (inr <$> prest).
    rewrite Hvms, Hpays, fmap_app, app_assoc. split; [done|].
    assert (Forall2 (λ entry r, registration_of entry = inl r)
              ((inl <$> vbuilt) ++ (inr <$> pbuilt))%list (vregs ++ pregs)%list) as Hall.
    { apply Forall2_app; by apply Forall2_fmap_l. }
    destruct prest as [|bad prest].
    + subst ostop. simpl. split; [done|]. split; [done|]. by intros bad rest' ?.
    + destruct Hprest as (stop & Hstop & ->). simpl. split; [done|].
      destruct (registration_stop (inr bad) stop Hstop) as [Hne Htag].
      split; [split; done|].
      intros bad' rest' [= <- <-]. split; [done|]. apply Htag.
  - destruct Hvrest as (stop & Hstop & ->). simpl.
    exists (inl <$> vbuilt),
      ((inl <$> bad :: vrest) ++ (inr <$> InterfaceConfig_Payment interfaceConfig))%list.
    rewrite Hvms, fmap_app, <- app_assoc. split; [done|].
    split; [by apply Forall2_fmap_l|].
    destruct (registration_stop (inl bad) stop Hstop) as [Hne Htag].
    split; [split; done|].
    intros bad' rest' [= <- <-]. split; [done|]. apply Htag.
Qed.

End wiring.

(** * The properties above at concrete stores *)

Lemma planDisable_hides_witness :
  planGet (planDisable db_starter 1) 1
  = Some (mkPlan 1 "Starter" 500 512 1 10 100 false false "" None None)
  ∧ planDisable empty_db 1 = empty_db.
Proof.
  destruct (planDisable_hides db_starter 1 "us-east") as (_ & _ & Hget & _).
  destruct (planDisable_hides empty_db 1 "us-east") as (_ & _ & _ & _ & _ & Hmissing).
  split.
  - apply (Hget (mkPlansRow "Starter" 500 512 1 10 100 false true)). reflexivity.
  - apply Hmissing. reflexivity.
Defined.

Lemma planDeassociateRegion_unbinds_witness :
  (1 ∉ Plan_Id <$> planListRegion (planDeassociateRegion db_starter 1 "us-east") "us-east")
  ∧ planDeassociateRegion db_starter 1 "eu-west" = db_starter.
Proof.
  destruct (planDeassociateRegion_unbinds db_starter 1 "us-east") as (_ & _ & _ & Hgone & _).
  destruct (planDeassociateRegion_unbinds db_starter 1 "eu-west") as (_ & _ & _ & _ & Hsame).
  split.
  - apply (Hgone (mkPlansRow "Starter" 500 512 1 10 100 false true)); reflexivity.
  - apply Hsame. intros (b & Hb & _ & Hreg). vm_compute in Hb.
    apply list_elem_of_singleton in Hb as ->. discriminate Hreg.
Defined.

Lemma planSetMetadata_then_load_witness :
  loaded_metadata (planSetMetadata (planSetMetadata empty_db 1 "os" "linux") 1 "os" "bsd")
    (mkPlan 1 "Starter" 500 512 1 10 100 false true "" None None) "os"
  = Some "bsd".
Proof.
  apply (planSetMetadata_then_load (planSetMetadata empty_db 1 "os" "linux") 1 "os" "bsd"
           (mkPlan 1 "Starter" 500 512 1 10 100 false true "" None None) "os").
  reflexivity.
Defined.

Lemma planUnsetMetadata_then_load_witness :
  loaded_metadata (planUnsetMetadata (planSetMetadata empty_db 1 "os" "linux") 1 "os")
    (mkPlan 1 "Starter" 500 512 1 10 100 false true "" None None) "os"
  = None
  ∧ planUnsetMetadata (planSetMetadata empty_db 1 "os" "linux") 1 "os" = empty_db.
Proof.
  split.
  - apply (planUnsetMetadata_then_load (planSetMetadata empty_db 1 "os" "linux") 1 "os" "x"
             (mkPlan 1 "Starter" 500 512 1 10 100 false true "" None None) "os").
    reflexivity.
  - apply (planUnsetMetadata_then_load empty_db 1 "os" "linux"
             (mkPlan 1 "Starter" 500 512 1 10 100 false true "" None None) "os").
    reflexivity.
Defined.

(** * One binding per plan and region *)

Lemma autopopulate_step_single ri enabled_default region db p :
  bindings_single db → bindings_single (autopopulate_step ri enabled_default region db p).
Proof.
  intros Hone. unfold autopopulate_step. case_bool_decide; [|done].
  unfold planCreate. simpl. intros id r.
  apply planAssociateRegion_keeps_single. intros id' r'. apply Hone.
Qed.

Lemma autopopulate_loop_single ri enabled_default region ps db :
  bindings_single db →
  bindings_single (fold_left (autopopulate_step ri enabled_default region) ps db).
Proof.
  revert db. induction ps as [|p ps IH]; intros db Hone; [done|].
  simpl. by apply IH, autopopulate_step_single.
Qed.

(** X27. Run one after the other, the operations of the catalog never bind a
    plan twice to a region: a [region_plans] table with at most one row for
    every (plan, region) pair is still such a table after
    [planAssociateRegion], [planDeassociateRegion], [planAutopopulate],
    [planCreate], [planDelete], [planEnable], [planDisable] and the two
    metadata operations, whether they succeed or not. *)
Theorem bindings_single_kept (ri : gmap string VmInterface) (enabled_default : bool)
    (db : Database) (planId : Z) (region ident k v name : string)
    (price ram cpu storage bandwidth : Z) (global : bool) :
  bindings_single db →
  bindings_single (planAssociateRegion ri db planId region ident).1
  ∧ bindings_single (planDeassociateRegion db planId region)
  ∧ bindings_single (planAutopopulate ri enabled_default db region).1
  ∧ bindings_single
      (planCreate enabled_default db name price ram cpu storage bandwidth global).1
  ∧ bindings_single (planDelete db planId)
  ∧ bindings_single (planEnable db planId)
  ∧ bindings_single (planDisable db planId)
  ∧ bindings_single (planSetMetadata db planId k v)
  ∧ bindings_single (planUnsetMetadata db planId k).
Proof.
  intros Hone.
  split; [intros id r; by apply planAssociateRegion_keeps_single|].
  split; [intros id r; by apply planDeassociateRegion_keeps_single|].
  split; [|split; [done|split; [done|split; [done|split; [done|split; [|done]]]]]].
  - unfold planAutopopulate. destruct (ri !! region) as [vmi|]; [|done].
    destruct (vmi_PlanList vmi) as [[ps [err|]]|]; [done| |done].
    by apply autopopulate_loop_single.
  - unfold planSetMetadata. by case_bool_decide.
Qed.

Lemma bindings_single_kept_witness :
  bindings_single (planAutopopulate us_east_only true db_starter "us-east").1
  ∧ bindings_single (planAssociateRegion us_east_only db_starter 1 "us-east" "ext-9").1.
Proof.
  assert (bindings_single db_starter) as Hstart.
  { intros id r.
    apply (planAssociateRegion_keeps_single us_east_only
             (planCreate true empty_db "Starter" 500 512 1 10 100 false).1 1 "us-east"
             "ext-123").
    intros id' r'. by vm_compute. }
  destruct (bindings_single_kept us_east_only true db_starter 1 "us-east" "ext-9" "k" "v"
              "n" 0 0 0 0 0 false Hstart) as (Hassoc & _ & Hauto & _).
  split; [exact Hauto|exact Hassoc].
Defined.
